(** * CSS specificity checker: a shallow embedding of
      [scripts/css-specificity-checker.py] and the properties of its
      calculator, selector extractor and report builder.

    Python strings are modelled as lists of 8-bit characters read as the
    code points 0..255; the character classes of [re] and of [str] below
    are the ones Python 3 uses on that range. *)

From Stdlib Require Import List Ascii String ZArith Lia Bool Arith DecimalString.
Import ListNotations.

Set Implicit Arguments.

Abbreviation length := Datatypes.length (only parsing).

(** ** Strings *)

Definition str := list ascii.

Definition lit (s : string) : str := list_ascii_of_string s.

(** The double quote character. *)
Definition dq : ascii := "034"%char.

Module Py.

Definition in_range (lo hi : nat) (c : ascii) : bool :=
  let n := nat_of_ascii c in (lo <=? n)%nat && (n <=? hi)%nat.

(** [str.isspace] on one character; also the class [\s]. *)
Definition isspace (c : ascii) : bool :=
  in_range 9 13 c || in_range 28 32 c || in_range 133 133 c || in_range 160 160 c.

Definition isdigit (c : ascii) : bool := in_range 48 57 c.

(** [[a-zA-Z]] *)
Definition isalpha_ascii (c : ascii) : bool :=
  in_range 65 90 c || in_range 97 122 c.

(** The class [\w] of a [str] pattern. *)
Definition isword (c : ascii) : bool :=
  isdigit c || isalpha_ascii c || Ascii.eqb c "_"
  || in_range 170 170 c || in_range 178 179 c || in_range 181 181 c
  || in_range 185 186 c || in_range 188 190 c
  || in_range 192 214 c || in_range 216 246 c || in_range 248 255 c.

(** [str.lower] on one character. *)
Definition lower_char (c : ascii) : ascii :=
  if in_range 65 90 c || in_range 192 214 c || in_range 216 222 c
  then ascii_of_nat (nat_of_ascii c + 32) else c.

Definition lower (s : str) : str := map lower_char s.

(** [s.startswith(p)] *)
Fixpoint startswith (p s : str) : bool :=
  match p, s with
  | [], _ => true
  | _ :: _, [] => false
  | a :: p', b :: s' => Ascii.eqb a b && startswith p' s'
  end.

(** [p in s] *)
Fixpoint contains (p s : str) : bool :=
  startswith p s ||
  match s with
  | [] => false
  | _ :: s' => contains p s'
  end.

Fixpoint lstrip (s : str) : str :=
  match s with
  | [] => []
  | c :: s' => if isspace c then lstrip s' else s
  end.

Definition rstrip (s : str) : str := rev (lstrip (rev s)).

(** [s.strip()] *)
Definition strip (s : str) : str := rstrip (lstrip s).

(** [s.split(sep)] for a one-character separator: never empty. *)
Fixpoint split (sep : ascii) (s : str) : list str :=
  match s with
  | [] => [[]]
  | c :: s' =>
      if Ascii.eqb c sep then [] :: split sep s'
      else match split sep s' with
           | x :: xs => (c :: x) :: xs
           | [] => [[c]]
           end
  end.

(** [len(l)] *)
Definition len {A} (l : list A) : Z := Z.of_nat (length l).

(** [max(l, default=d)] *)
Definition max_default (d : Z) (l : list Z) : Z :=
  match l with
  | [] => d
  | x :: xs => fold_left Z.max xs x
  end.

(** [str(n)] for an [int]. *)
Definition str_of_int (n : Z) : str := lit (NilZero.string_of_int (Z.to_int n)).

End Py.

(** ** Regular expressions

    The fragment of [re] the program uses.  Repetition is only ever applied
    to a character set, and at most one capture group occurs in a pattern. *)

Inductive regex : Type :=
| Chr (c : ascii)                 (* one literal character *)
| Lit (l : str)                   (* a literal word *)
| CSet (p : ascii -> bool)        (* [...], [^...], \w, \s, . *)
| Seq (r1 r2 : regex)             (* r1 r2 *)
| Alt (r1 r2 : regex)             (* r1|r2 *)
| Star (p : ascii -> bool)        (* [...]*  greedy *)
| Plus (p : ascii -> bool)        (* [...]+  greedy *)
| StarLazy (p : ascii -> bool)    (* [...]*? *)
| Opt (r : regex)                 (* (?:r)?  greedy *)
| NegLook (r : regex)             (* (?!r) *)
| Group (r : regex).              (* (r), group 1 *)

(** Number of leading characters of [s] in the set [p]. *)
Fixpoint span (p : ascii -> bool) (s : str) : nat :=
  match s with
  | [] => 0
  | c :: s' => if p c then S (span p s') else 0
  end.

Definition merge_group (g1 g2 : option str) : option str :=
  match g2 with
  | Some _ => g2
  | None => g1
  end.

(** [rmatch r s]: every way [r] matches a prefix of [s], as the number of
    characters consumed and the text of group 1, in the order in which the
    backtracking matcher of [re] tries them.  The match [re] reports is the
    head of this list. *)
Fixpoint rmatch (r : regex) (s : str) : list (nat * option str) :=
  match r with
  | Chr c =>
      match s with
      | x :: _ => if Ascii.eqb x c then [(1, None)] else []
      | [] => []
      end
  | Lit l => if Py.startswith l s then [(length l, None)] else []
  | CSet p =>
      match s with
      | x :: _ => if p x then [(1, None)] else []
      | [] => []
      end
  | Seq r1 r2 =>
      flat_map
        (fun m1 =>
           map (fun m2 => (fst m1 + fst m2, merge_group (snd m1) (snd m2)))
               (rmatch r2 (skipn (fst m1) s)))
        (rmatch r1 s)
  | Alt r1 r2 => rmatch r1 s ++ rmatch r2 s
  | Star p => map (fun n => (n, None)) (rev (seq 0 (S (span p s))))
  | Plus p => map (fun n => (n, None)) (rev (seq 1 (span p s)))
  | StarLazy p => map (fun n => (n, None)) (seq 0 (S (span p s)))
  | Opt r1 => rmatch r1 s ++ [(0, None)]
  | NegLook r1 =>
      match rmatch r1 s with
      | [] => [(0, None)]
      | _ :: _ => []
      end
  | Group r1 => map (fun m => (fst m, Some (firstn (fst m) s))) (rmatch r1 s)
  end.

(** What a left-to-right scan of the subject yields: a character no match
    covers, or a match with its text and its group. *)
Inductive piece : Type :=
| Gap (c : ascii)
| Hit (m : str) (g : option str).

(** The scan behind [re.findall], [re.sub] and [re.split]: try the pattern
    at each position from the left; after a match resume where it ended.
    [skip] counts the characters still covered by the last match.  Every
    pattern of the program consumes at least one character, so the rules of
    [re] for empty matches never come into play. *)
Fixpoint scan (r : regex) (skip : nat) (s : str) {struct s} : list piece :=
  match skip with
  | S k =>
      match s with
      | [] => []
      | _ :: s' => scan r k s'
      end
  | O =>
      match rmatch r s with
      | (n, g) :: _ =>
          Hit (firstn n s) g ::
          match n, s with
          | _, [] => []
          | O, c :: s' => Gap c :: scan r 0 s'
          | S k, _ :: s' => scan r k s'
          end
      | [] =>
          match s with
          | [] => []
          | c :: s' => Gap c :: scan r 0 s'
          end
      end
  end.

Module Re.

(** [re.findall(r, s)] for a pattern without group: the matched texts. *)
Definition findall (r : regex) (s : str) : list str :=
  flat_map (fun p => match p with Hit m _ => [m] | Gap _ => [] end) (scan r 0 s).

(** [re.findall(r, s)] for a pattern with one group: the group's texts
    (the empty string where the group took no part). *)
Definition findall_group (r : regex) (s : str) : list str :=
  flat_map (fun p => match p with
                     | Hit _ (Some g) => [g]
                     | Hit _ None => [[]]
                     | Gap _ => []
                     end) (scan r 0 s).

(** [re.sub(r, repl, s)] for a replacement without escapes. *)
Definition sub (r : regex) (repl : str) (s : str) : str :=
  flat_map (fun p => match p with Hit _ _ => repl | Gap c => [c] end) (scan r 0 s).

Fixpoint split_pieces (ps : list piece) : list str :=
  match ps with
  | [] => [[]]
  | Gap c :: ps' =>
      match split_pieces ps' with
      | x :: xs => (c :: x) :: xs
      | [] => [[c]]
      end
  | Hit _ _ :: ps' => [] :: split_pieces ps'
  end.

(** [re.split(r, s)] for a pattern without group. *)
Definition split (r : regex) (s : str) : list str := split_pieces (scan r 0 s).

(** [re.match(r, s)] seen as a truth value. *)
Definition matches (r : regex) (s : str) : bool :=
  match rmatch r s with
  | [] => false
  | _ :: _ => true
  end.

End Re.

(** ** The calculator: class [CSSSpecificityCalculator] *)

(** [(inline, ids, classes, elements)] *)
Definition Specificity : Type := (Z * Z * Z * Z)%type.

Definition inline_of (x : Specificity) : Z := let '(i, _, _, _) := x in i.
Definition ids_of (x : Specificity) : Z := let '(_, i, _, _) := x in i.
Definition classes_of (x : Specificity) : Z := let '(_, _, c, _) := x in c.
Definition elements_of (x : Specificity) : Z := let '(_, _, _, e) := x in e.

Definition DEFAULT_THRESHOLD : Specificity := (0, 1, 3, 3)%Z.

Record CSSSpecificityCalculator : Type := { threshold : Specificity }.

(** [__init__]: [threshold or DEFAULT_THRESHOLD]; a 4-tuple is never false. *)
Definition init_calculator (t : option Specificity) : CSSSpecificityCalculator :=
  {| threshold := match t with Some x => x | None => DEFAULT_THRESHOLD end |}.

Module Pat.

Definition word_dash (c : ascii) : bool := Py.isword c || Ascii.eqb c "-".

Definition other_than (x : ascii) (c : ascii) : bool := negb (Ascii.eqb c x).

(** The set of the attribute pattern: [\w], [\s] and the characters
    - = ~ | ^ $ * : and both quotes. *)
Definition attr_char (c : ascii) : bool :=
  Py.isword c || Ascii.eqb c "-" || Ascii.eqb c "=" || Ascii.eqb c "~"
  || Ascii.eqb c "|" || Ascii.eqb c "^" || Ascii.eqb c "$" || Ascii.eqb c "*"
  || Ascii.eqb c dq || Ascii.eqb c "'" || Ascii.eqb c ":" || Py.isspace c.

(** [[\s>+~]] *)
Definition combinator (c : ascii) : bool :=
  Py.isspace c || Ascii.eqb c ">" || Ascii.eqb c "+" || Ascii.eqb c "~".

(** [[^{}]] *)
Definition not_brace (c : ascii) : bool :=
  negb (Ascii.eqb c "{" || Ascii.eqb c "}").

(** [.] under [re.DOTALL] *)
Definition any (c : ascii) : bool := true.

(** [w1|w2|...] *)
Fixpoint words (ws : list string) : regex :=
  match ws with
  | [] => NegLook (Lit [])
  | [w] => Lit (lit w)
  | w :: ws' => Alt (Lit (lit w)) (words ws')
  end.

(** A double quote, [[^Q]*] with Q the double quote, a double quote. *)
Definition double_quoted : regex := Seq (Chr dq) (Seq (Star (other_than dq)) (Chr dq)).

(** The same with the single quote. *)
Definition single_quoted : regex := Seq (Chr "'") (Seq (Star (other_than "'")) (Chr "'")).

(** [#[\w-]+] *)
Definition id : regex := Seq (Chr "#") (Plus word_dash).

(** [\.[\w-]+] *)
Definition class : regex := Seq (Chr ".") (Plus word_dash).

(** An opening bracket, one or more characters of the set above, a
    closing bracket. *)
Definition attribute : regex := Seq (Chr "[") (Seq (Plus attr_char) (Chr "]")).

(** [::?(?:before|after|first-line|first-letter|backdrop|placeholder|marker|selection)] *)
Definition pseudo_element : regex :=
  Seq (Chr ":")
    (Seq (Opt (Chr ":"))
       (words ["before"; "after"; "first-line"; "first-letter"; "backdrop";
               "placeholder"; "marker"; "selection"]%string)).

(** [:(?!not|is|where|has)(?!before|after|first-line|first-letter)[\w-]+] *)
Definition pseudo_class : regex :=
  Seq (Chr ":")
    (Seq (NegLook (words ["not"; "is"; "where"; "has"]%string))
       (Seq (NegLook (words ["before"; "after"; "first-line"; "first-letter"]%string))
          (Plus word_dash))).

(** [:not\(([^)]+)\)] *)
Definition not_fn : regex :=
  Seq (Lit (lit ":not(")) (Seq (Group (Plus (other_than ")"))) (Chr ")")).

(** [:(?:is|has)\(([^)]+)\)] *)
Definition is_has_fn : regex :=
  Seq (Chr ":")
    (Seq (words ["is"; "has"]%string)
       (Seq (Chr "(") (Seq (Group (Plus (other_than ")"))) (Chr ")")))).

(** [[\s>+~]+] *)
Definition combinators : regex := Plus combinator.

(** [:[\w-]+(?:\([^)]*\))?] *)
Definition pseudo_any : regex :=
  Seq (Chr ":")
    (Seq (Plus word_dash)
       (Opt (Seq (Chr "(") (Seq (Star (other_than ")")) (Chr ")"))))).

(** [^[a-zA-Z][\w-]*]; the pattern is only used with [re.match], which
    tries it at the start of the subject, where [^] holds. *)
Definition element_name : regex := Seq (CSet Py.isalpha_ascii) (Star word_dash).

(** [/\*.*?\*/] with [re.DOTALL] *)
Definition comment : regex := Seq (Lit (lit "/*")) (Seq (StarLazy any) (Lit (lit "*/"))).

(** [([^{}]+)\{] *)
Definition prelude : regex := Seq (Group (Plus not_brace)) (Chr "{").

End Pat.

(** [_clean_selector] *)
Definition _clean_selector (selector : str) : str :=
  let cleaned := Re.sub Pat.double_quoted [dq; dq] selector in
  let cleaned := Re.sub Pat.single_quoted (lit "''") cleaned in
  Py.strip cleaned.

(** The loop over [not_matches] of [_count_pseudo_classes], [count] being
    the running total; [calculate] is the method it calls back. *)
Fixpoint count_not (calculate : str -> option Specificity)
    (not_matches : list str) (count : Z) : option Z :=
  match not_matches with
  | [] => Some count
  | arg :: rest =>
      match calculate arg with
      | Some spec => count_not calculate rest (count + classes_of spec)
      | None => None
      end
  end.

(** [(self.calculate(s.strip())[2] for s in selectors)] *)
Fixpoint classes_each (calculate : str -> option Specificity)
    (selectors : list str) : option (list Z) :=
  match selectors with
  | [] => Some []
  | s :: rest =>
      match calculate (Py.strip s) with
      | Some spec =>
          match classes_each calculate rest with
          | Some l => Some (classes_of spec :: l)
          | None => None
          end
      | None => None
      end
  end.

(** The loop over [is_matches] of [_count_pseudo_classes]. *)
Fixpoint count_is (calculate : str -> option Specificity)
    (is_matches : list str) (count : Z) : option Z :=
  match is_matches with
  | [] => Some count
  | args :: rest =>
      let selectors := Py.split "," args in
      match classes_each calculate selectors with
      | Some l =>
          let max_classes := Py.max_default 0 l in
          count_is calculate rest (count + max_classes)
      | None => None
      end
  end.

(** [_count_pseudo_classes] *)
Definition _count_pseudo_classes (calculate : str -> option Specificity)
    (selector : str) : option Z :=
  let count := 0%Z in
  let pseudo_classes := Re.findall Pat.pseudo_class selector in
  let count := (count + Py.len pseudo_classes)%Z in
  let not_matches := Re.findall_group Pat.not_fn selector in
  match count_not calculate not_matches count with
  | Some count =>
      let is_matches := Re.findall_group Pat.is_has_fn selector in
      count_is calculate is_matches count
  | None => None
  end.

(** The body of the loop over [parts] of [_count_elements]. *)
Definition count_part (part : str) (count : Z) : Z :=
  let element := Re.sub Pat.id [] part in
  let element := Re.sub Pat.class [] element in
  let element := Re.sub Pat.attribute [] element in
  let element := Re.sub Pat.pseudo_any [] element in
  let element := Py.strip element in
  if negb (match element with [] => true | _ => false end)
     && negb (existsb (fun x => if list_eq_dec ascii_dec element x then true else false)
                [lit ">"; lit "+"; lit "~"; lit ","])
  then
    if Re.matches Pat.element_name element then (count + 1)%Z else count
  else count.

(** [_count_elements] *)
Definition _count_elements (selector : str) : Z :=
  let parts := Re.split Pat.combinators selector in
  fold_left (fun count part => count_part part count) parts 0%Z.

(** [calculate].  The method calls itself through [_count_pseudo_classes];
    [fuel] bounds the depth of these calls, and [None] means it ran out. *)
Fixpoint calculate_fuel (fuel : nat) (selector : str) : option Specificity :=
  match fuel with
  | O => None
  | S fuel' =>
      if Py.contains (lit "style=") (Py.lower selector) then Some (1, 0, 0, 0)%Z
      else
        let cleaned := _clean_selector selector in
        let ids := Py.len (Re.findall Pat.id cleaned) in
        match _count_pseudo_classes (calculate_fuel fuel') cleaned with
        | Some pseudo =>
            let classes :=
              (Py.len (Re.findall Pat.class cleaned)
               + Py.len (Re.findall Pat.attribute cleaned)
               + pseudo)%Z in
            let elements :=
              (_count_elements cleaned
               + Py.len (Re.findall Pat.pseudo_element cleaned))%Z in
            Some (0, ids, classes, elements)%Z
        | None => None
        end
  end.

(** [calculate] with as much fuel as the selector can need. *)
Definition calculate (selector : str) : option Specificity :=
  calculate_fuel (S (length selector)) selector.

(** [format_specificity] *)
Definition format_specificity (spec : Specificity) : str :=
  let '(i, d, c, e) := spec in
  Py.str_of_int i ++ lit "," ++ Py.str_of_int d ++ lit ","
  ++ Py.str_of_int c ++ lit "," ++ Py.str_of_int e.

(** The comparison [a > b] of two 4-tuples of [int]: the first position
    where they differ decides; equal tuples are not greater. *)
Definition tuple_gt (a b : Specificity) : bool :=
  let '(a0, a1, a2, a3) := a in
  let '(b0, b1, b2, b3) := b in
  if negb (a0 =? b0)%Z then (b0 <? a0)%Z
  else if negb (a1 =? b1)%Z then (b1 <? a1)%Z
  else if negb (a2 =? b2)%Z then (b2 <? a2)%Z
  else if negb (a3 =? b3)%Z then (b3 <? a3)%Z
  else false.

(** [is_high_specificity] *)
Definition is_high_specificity (self : CSSSpecificityCalculator)
    (spec : Specificity) : bool :=
  tuple_gt spec (threshold self).

(** The dictionary [analyze_selector] returns. *)
Record Analysis : Type := {
  a_selector : str;
  a_specificity : str;
  a_specificity_tuple : Specificity;
  a_is_high : bool;
  a_threshold : str
}.

(** [analyze_selector] *)
Definition analyze_selector (self : CSSSpecificityCalculator)
    (selector : str) : option Analysis :=
  match calculate selector with
  | Some spec =>
      Some {| a_selector := selector;
              a_specificity := format_specificity spec;
              a_specificity_tuple := spec;
              a_is_high := is_high_specificity self spec;
              a_threshold := format_specificity (threshold self) |}
  | None => None
  end.

(** ** The analyzer: class [CSSFileAnalyzer] *)

(** The inner loop of [extract_selectors], over the [parts] of one match. *)
Definition selectors_of_parts (parts : list str) : list str :=
  filter (fun selector =>
            negb (match selector with [] => true | _ => false end)
            && negb (Py.startswith (lit "@") selector))
         (map Py.strip parts).

(** [extract_selectors] *)
Definition extract_selectors (css_content : str) : list str :=
  let css_content := Re.sub Pat.comment [] css_content in
  let matches := Re.findall_group Pat.prelude css_content in
  flat_map
    (fun m =>
       if Py.startswith (lit "@") (Py.strip m) then []
       else selectors_of_parts (Py.split "," m))
    matches.

(** The dictionary [analyze_file] returns: the error entry, or the report. *)
Record Report : Type := {
  file : str;
  total_selectors : Z;
  high_specificity_count : Z;
  r_threshold : str;
  selectors : list Analysis
}.

Inductive FileAnalysis : Type :=
| Failed (error : str)
| Analysed (report : Report).

(** The loop of [analyze_file] over the selectors: the state is [results]
    and [high_specificity_count]. *)
Fixpoint analyze_each (calculator : CSSSpecificityCalculator)
    (sels : list str) (results : list Analysis) (high_specificity_count : Z)
  : option (list Analysis * Z) :=
  match sels with
  | [] => Some (results, high_specificity_count)
  | selector :: rest =>
      match analyze_selector calculator selector with
      | Some analysis =>
          analyze_each calculator rest (results ++ [analysis])
            (if a_is_high analysis then high_specificity_count + 1
             else high_specificity_count)%Z
      | None => None
      end
  end.

(** [analyze_file].  [read] stands for opening and reading the file: the
    content, or the text of the exception. *)
Definition analyze_file (calculator : CSSSpecificityCalculator)
    (read : str -> str + str) (file_path : str) : option FileAnalysis :=
  match read file_path with
  | inr e => Some (Failed (lit "Failed to read file: " ++ e))
  | inl content =>
      let sels := extract_selectors content in
      match analyze_each calculator sels [] 0%Z with
      | Some (results, high_specificity_count) =>
          Some (Analysed
                  {| file := file_path;
                     total_selectors := Py.len sels;
                     high_specificity_count := high_specificity_count;
                     r_threshold := format_specificity (threshold calculator);
                     selectors := results |})
      | None => None
      end
  end.

(** ** Definitions the statements use *)

(** The text [re.findall] reports for the group of a match. *)
Definition gtext (g : option str) : str :=
  match g with Some t => t | None => [] end.

(** The strings [_count_pseudo_classes] passes to [calculate]. *)
Definition recursive_args (selector : str) : list str :=
  Re.findall_group Pat.not_fn selector
  ++ flat_map (fun args => map Py.strip (Py.split "," args))
       (Re.findall_group Pat.is_has_fn selector).

(** No closing parenthesis occurs in [s]. *)
Definition no_close (s : str) : Prop := Forall (fun c => c <> ")"%char) s.

Definition zsum (l : list Z) : Z := fold_right Z.add 0%Z l.

(** The candidates of one [:is(...)] or [:has(...)]: their class components. *)
Definition candidate_classes (f : str -> Specificity) (args : str) : list Z :=
  map (fun x => classes_of (f (Py.strip x))) (Py.split "," args).

(** What [_count_pseudo_classes] adds up when [calculate] returns [f]. *)
Definition pseudo_count (f : str -> Specificity) (selector : str) : Z :=
  (Py.len (Re.findall Pat.pseudo_class selector)
   + zsum (map (fun arg => classes_of (f arg))
             (Re.findall_group Pat.not_fn selector))
   + zsum (map (fun args => Py.max_default 0 (candidate_classes f args))
             (Re.findall_group Pat.is_has_fn selector)))%Z.

Definition or_zero (o : option Specificity) : Specificity :=
  match o with Some x => x | None => (0, 0, 0, 0)%Z end.

Definition specificity (selector : str) : Specificity :=
  or_zero (calculate selector).








(** [p] occurs in [s] up to the case of the letters of [s]. *)
Definition occurs_ci (p s : str) : Prop :=
  exists pre m post, s = pre ++ m ++ post /\ Py.lower m = p.

(** Strictly greater in the lexicographic order on
    (inline, id, class, element). *)
Definition lex_gt (a b : Specificity) : Prop :=
  (inline_of a > inline_of b
   \/ inline_of a = inline_of b
      /\ (ids_of a > ids_of b
          \/ ids_of a = ids_of b
             /\ (classes_of a > classes_of b
                 \/ classes_of a = classes_of b
                    /\ elements_of a > elements_of b)))%Z.

Definition example_css : str :=
  lit "/* c */ .a, .b { color: red; } @media screen { .c { color: blue; } }".

Definition example_selectors : list str := [lit "#id .a .b .c"; lit "div"].

(** The dictionary [analyze_selector] builds for [selector], given what
    [calculate] computes. *)
Definition analysis_of (self : CSSSpecificityCalculator) (selector : str) : Analysis :=
  {| a_selector := selector;
     a_specificity := format_specificity (specificity selector);
     a_specificity_tuple := specificity selector;
     a_is_high := is_high_specificity self (specificity selector);
     a_threshold := format_specificity (threshold self) |}.

(** [a] is at most [b] in each of the four components. *)
Definition pointwise_le (a b : Specificity) : Prop :=
  (inline_of a <= inline_of b /\ ids_of a <= ids_of b
   /\ classes_of a <= classes_of b /\ elements_of a <= elements_of b)%Z.

(** Selectors built from type, class and id selectors and combinators.
    A compound selector is a tag (possibly empty) followed by class and id
    parts; [true] marks an id. *)
Record Compound : Type := { c_tag : str; c_parts : list (bool * str) }.

Definition marker (is_id : bool) : ascii := if is_id then "#"%char else "."%char.

Definition render_parts (parts : list (bool * str)) : str :=
  flat_map (fun p => marker (fst p) :: snd p) parts.

Definition render_compound (c : Compound) : str := c_tag c ++ render_parts (c_parts c).

(** A first compound, then combinators each followed by a compound. *)
Definition render_selector (c0 : Compound) (rest : list (str * Compound)) : str :=
  render_compound c0 ++ flat_map (fun wc => fst wc ++ render_compound (snd wc)) rest.

(** Names are made of the characters of [[\w-]]. *)
Definition name_ok (n : str) : Prop := Forall (fun c => Pat.word_dash c = true) n.

Definition compound_ok (c : Compound) : Prop :=
  name_ok (c_tag c)
  /\ Forall (fun p => snd p <> [] /\ name_ok (snd p)) (c_parts c)
  /\ render_compound c <> [].

(** A combinator is a non-empty run of white space, [>], [+] and [~]. *)
Definition combinator_ok (w : str) : Prop :=
  w <> [] /\ Forall (fun c => Pat.combinator c = true) w.

Definition count_parts (is_id : bool) (c : Compound) : Z :=
  Py.len (filter (fun p => Bool.eqb (fst p) is_id) (c_parts c)).

(** 1 when the tag starts with a letter of [[a-zA-Z]], else 0. *)
Definition count_type (c : Compound) : Z :=
  match c_tag c with
  | x :: _ => if Py.isalpha_ascii x then 1%Z else 0%Z
  | [] => 0%Z
  end.

(** The characters of such selectors. *)
Definition sel_char (c : ascii) : bool :=
  Pat.word_dash c || Ascii.eqb c "." || Ascii.eqb c "#" || Pat.combinator c.

(** A rule: the text before the opening brace and the text between the
    braces. *)
Record Rule : Type := { rule_selectors : str; rule_body : str }.

Definition render_rule (r : Rule) : str :=
  rule_selectors r ++ lit "{" ++ rule_body r ++ lit "}".

(** A stylesheet of rules one after the other, then a text without rule. *)
Definition render_sheet (rules : list Rule) (trailer : str) : str :=
  flat_map render_rule rules ++ trailer.

Definition brace_free (s : str) : Prop := Forall (fun c => Pat.not_brace c = true) s.

Definition rule_ok (r : Rule) : Prop :=
  rule_selectors r <> [] /\ brace_free (rule_selectors r) /\ brace_free (rule_body r).

(** * Properties *)

(** ** Strings *)

Section StringFacts.

Lemma startswith_length (p s : str) :
  Py.startswith p s = true -> length p <= length s.
Proof.
  revert s; induction p as [|a p IH]; intros [|b s] H; simpl in *;
    try lia; try discriminate.
  apply andb_true_iff in H as [_ H]. apply IH in H. lia.
Qed.

Lemma startswith_iff (p s : str) :
  Py.startswith p s = true <-> exists post, s = p ++ post.
Proof.
  revert s; induction p as [|a p IH]; intros s; simpl.
  - split; [intros _; now exists s | reflexivity].
  - destruct s as [|b s].
    + split; [discriminate | intros [post H]; discriminate].
    + rewrite andb_true_iff, Ascii.eqb_eq, IH. split.
      * intros [-> [post ->]]. now exists post.
      * intros [post H]. injection H as -> ->. split; [reflexivity | now exists post].
Qed.

Lemma contains_iff (p s : str) :
  Py.contains p s = true <-> exists pre post, s = pre ++ p ++ post.
Proof.
  induction s as [|c s IH].
  - simpl. rewrite orb_false_r, startswith_iff. split.
    + intros [post H]. now exists [], post.
    + intros [[|x pre] [post H]]; [now exists post | discriminate].
  - cbn [Py.contains]. rewrite orb_true_iff, startswith_iff, IH. split.
    + intros [[post H] | [pre [post H]]].
      * now exists [], post.
      * exists (c :: pre), post. now rewrite H.
    + intros [[|x pre] [post H]].
      * left. now exists post.
      * right. injection H as _ H. now exists pre, post.
Qed.

Lemma lstrip_length (s : str) : length (Py.lstrip s) <= length s.
Proof.
  induction s as [|c s IH]; simpl; [lia|].
  destruct (Py.isspace c); simpl; lia.
Qed.

Lemma strip_length (s : str) : length (Py.strip s) <= length s.
Proof.
  unfold Py.strip, Py.rstrip. rewrite length_rev.
  etransitivity; [apply lstrip_length|].
  rewrite length_rev. apply lstrip_length.
Qed.

Lemma lstrip_spaces (s : str) :
  Forall (fun c => Py.isspace c = true) s -> Py.lstrip s = [].
Proof.
  induction 1 as [|c s Hc _ IH]; simpl; [reflexivity|]. now rewrite Hc.
Qed.

Lemma strip_spaces (s : str) :
  Forall (fun c => Py.isspace c = true) s -> Py.strip s = [].
Proof.
  intros H. unfold Py.strip. now rewrite (lstrip_spaces H).
Qed.

Lemma split_length (sep : ascii) (s x : str) :
  In x (Py.split sep s) -> length x <= length s.
Proof.
  revert x; induction s as [|c s IH]; intros x; simpl.
  - intros [<- | []]. simpl; lia.
  - destruct (Ascii.eqb c sep).
    + intros [<- | H]; [simpl; lia | apply IH in H; lia].
    + destruct (Py.split sep s) as [|y ys] eqn:E.
      * intros [<- | []]. simpl; lia.
      * intros [<- | H].
        -- specialize (IH y (or_introl eq_refl)). simpl; lia.
        -- specialize (IH x (or_intror H)). lia.
Qed.

Lemma lstrip_forall (P : ascii -> Prop) (s : str) :
  Forall P s -> Forall P (Py.lstrip s).
Proof.
  induction 1 as [|c s Hc Hs IH]; simpl; [constructor|].
  destruct (Py.isspace c); [exact IH | now constructor].
Qed.

Lemma strip_forall (P : ascii -> Prop) (s : str) :
  Forall P s -> Forall P (Py.strip s).
Proof.
  intros H. unfold Py.strip, Py.rstrip.
  now apply Forall_rev, lstrip_forall, Forall_rev, lstrip_forall.
Qed.

Lemma split_forall (P : ascii -> Prop) (sep : ascii) (s x : str) :
  Forall P s -> In x (Py.split sep s) -> Forall P x.
Proof.
  intros H. revert x. induction H as [|c s Hc Hs IH]; intros x; simpl.
  - intros [<- | []]. constructor.
  - destruct (Ascii.eqb c sep).
    + intros [<- | Hx]; [constructor | auto].
    + destruct (Py.split sep s) as [|y ys].
      * intros [<- | []]. now repeat constructor.
      * intros [<- | Hx].
        -- constructor; [exact Hc | apply IH; now left].
        -- apply IH. now right.
Qed.


Lemma len_nonneg {A} (l : list A) : (0 <= Py.len l)%Z.
Proof. unfold Py.len. lia. Qed.

Lemma fold_max_ge (l : list Z) (x : Z) : (x <= fold_left Z.max l x)%Z.
Proof.
  revert x; induction l as [|y l IH]; intros x; simpl; [lia|].
  specialize (IH (Z.max x y)). lia.
Qed.

Lemma max_default_nonneg (l : list Z) :
  Forall (fun x => 0 <= x)%Z l -> (0 <= Py.max_default 0 l)%Z.
Proof.
  destruct 1 as [|x l Hx _]; simpl; [lia|].
  pose proof (fold_max_ge l x). lia.
Qed.

End StringFacts.

(** ** The matcher *)

Section MatcherFacts.

Lemma span_le (p : ascii -> bool) (s : str) : span p s <= length s.
Proof.
  induction s as [|c s IH]; simpl; [lia|]. destruct (p c); simpl; lia.
Qed.

(** A match never consumes more than the subject. *)
Lemma rmatch_le_length (r : regex) :
  forall s n g, In (n, g) (rmatch r s) -> n <= length s.
Proof.
  induction r as [c | l | p | r1 IH1 r2 IH2 | r1 IH1 r2 IH2 | p | p | p
                 | r1 IH1 | r1 IH1 | r1 IH1]; intros s n g H; cbn [rmatch] in H.
  - destruct s as [|x s]; [contradiction|].
    destruct (Ascii.eqb x c); [|contradiction].
    destruct H as [H | []]. injection H as <- _. simpl; lia.
  - destruct (Py.startswith l s) eqn:E; [|contradiction].
    destruct H as [H | []]. injection H as <- _. now apply startswith_length.
  - destruct s as [|x s]; [contradiction|].
    destruct (p x); [|contradiction].
    destruct H as [H | []]. injection H as <- _. simpl; lia.
  - apply in_flat_map in H as [[n1 g1] [H1 H2]].
    apply in_map_iff in H2 as [[n2 g2] [E H2]]. simpl in *.
    injection E as <- _. apply IH1 in H1. apply IH2 in H2.
    rewrite length_skipn in H2. lia.
  - apply in_app_or in H as [H | H]; eauto.
  - apply in_map_iff in H as [k [E H]]. injection E as <- _.
    apply in_rev, in_seq in H. pose proof (span_le p s). lia.
  - apply in_map_iff in H as [k [E H]]. injection E as <- _.
    apply in_rev, in_seq in H. pose proof (span_le p s). lia.
  - apply in_map_iff in H as [k [E H]]. injection E as <- _.
    apply in_seq in H. pose proof (span_le p s). lia.
  - apply in_app_or in H as [H | [H | []]]; [eauto|].
    injection H as <- _. lia.
  - destruct (rmatch r1 s); [|contradiction].
    destruct H as [H | []]. injection H as <- _. lia.
  - apply in_map_iff in H as [[k g1] [E H]]. simpl in E.
    injection E as <- _. eauto.
Qed.

(** The text of the group is no longer than the subject. *)
Lemma rmatch_group_length (r : regex) :
  forall s n t, In (n, Some t) (rmatch r s) -> length t <= length s.
Proof.
  induction r as [c | l | p | r1 IH1 r2 IH2 | r1 IH1 r2 IH2 | p | p | p
                 | r1 IH1 | r1 IH1 | r1 IH1]; intros s n t H; cbn [rmatch] in H.
  - destruct s as [|x s]; [contradiction|].
    destruct (Ascii.eqb x c); [|contradiction].
    destruct H as [H | []]. discriminate.
  - destruct (Py.startswith l s); [|contradiction].
    destruct H as [H | []]. discriminate.
  - destruct s as [|x s]; [contradiction|].
    destruct (p x); [|contradiction].
    destruct H as [H | []]. discriminate.
  - apply in_flat_map in H as [[n1 g1] [H1 H2]].
    apply in_map_iff in H2 as [[n2 g2] [E H2]]. simpl in *.
    injection E as _ E. destruct g2 as [t2|]; simpl in E.
    + injection E as ->. apply IH2 in H2. rewrite length_skipn in H2. lia.
    + subst g1. eauto.
  - apply in_app_or in H as [H | H]; eauto.
  - apply in_map_iff in H as [k [E H]]. discriminate.
  - apply in_map_iff in H as [k [E H]]. discriminate.
  - apply in_map_iff in H as [k [E H]]. discriminate.
  - apply in_app_or in H as [H | [H | []]]; [eauto | discriminate].
  - destruct (rmatch r1 s); [|contradiction].
    destruct H as [H | []]. discriminate.
  - apply in_map_iff in H as [[k g1] [E H]]. simpl in E.
    injection E as _ <-. rewrite length_firstn. lia.
Qed.

(** A pattern that opens with a literal character fails where the subject
    does not start with it. *)
Lemma rmatch_chr_head (c : ascii) (r : regex) (s : str) :
  match s with [] => True | x :: _ => x <> c end ->
  rmatch (Seq (Chr c) r) s = [].
Proof.
  intros H. simpl. destruct s as [|x s]; [reflexivity|].
  apply Ascii.eqb_neq in H. now rewrite H.
Qed.

(** Every hit of a scan is the first match at some position. *)
Lemma scan_hit (r : regex) :
  forall s k m g,
    In (Hit m g) (scan r k s) ->
    exists pre suf n, s = pre ++ suf
                      /\ hd_error (rmatch r suf) = Some (n, g)
                      /\ m = firstn n suf.
Proof.
  assert (step : forall (c : ascii) (s : str) (m : str) (g : option str),
             (exists pre suf n, s = pre ++ suf
                                /\ hd_error (rmatch r suf) = Some (n, g)
                                /\ m = firstn n suf) ->
             exists pre suf n, c :: s = pre ++ suf
                               /\ hd_error (rmatch r suf) = Some (n, g)
                               /\ m = firstn n suf).
  { intros c s m g (pre & suf & n & -> & H1 & H2).
    now exists (c :: pre), suf, n. }
  induction s as [|c s IH]; intros k m g H.
  - destruct k as [|k]; simpl in H; [|contradiction].
    destruct (rmatch r []) as [|[n g'] l] eqn:E; [contradiction|].
    destruct H as [H | H]; [|destruct n; contradiction].
    injection H as <- <-.
    exists [], [], n. rewrite E. repeat split.
  - destruct k as [|k]; simpl in H.
    + destruct (rmatch r (c :: s)) as [|[n g'] l] eqn:E.
      * destruct H as [H | H]; [discriminate|]. eauto.
      * destruct H as [H | H].
        -- injection H as <- <-. exists [], (c :: s), n. rewrite E.
           repeat split.
        -- destruct n as [|n].
           ++ destruct H as [H | H]; [discriminate|]. eauto.
           ++ eauto.
    + eauto.
Qed.

(** Every gap of a scan is a character of the subject. *)
Lemma scan_gap (r : regex) :
  forall s k c, In (Gap c) (scan r k s) -> In c s.
Proof.
  induction s as [|x s IH]; intros k c H.
  - destruct k as [|k]; simpl in H; [|contradiction].
    destruct (rmatch r []) as [|[n g] l]; [contradiction|].
    destruct H as [H | H]; [discriminate | destruct n; contradiction].
  - destruct k as [|k]; simpl in H.
    + destruct (rmatch r (x :: s)) as [|[n g] l].
      * destruct H as [H | H]; [injection H as ->; now left | right; eauto].
      * destruct H as [H | H]; [discriminate|].
        destruct n as [|n]; [|right; eauto].
        destruct H as [H | H]; [injection H as ->; now left | right; eauto].
    + right; eauto.
Qed.

(** Where the pattern matches nowhere, the scan leaves every character. *)
Lemma scan_chr_absent (c : ascii) (r : regex) (s : str) :
  Forall (fun x => x <> c) s -> scan (Seq (Chr c) r) 0 s = map Gap s.
Proof.
  induction 1 as [|x s Hx _ IH].
  - reflexivity.
  - cbn [scan]. rewrite rmatch_chr_head by exact Hx.
    cbn [map]. now rewrite IH.
Qed.

Lemma sub_chr_absent (c : ascii) (r : regex) (repl s : str) :
  Forall (fun x => x <> c) s -> Re.sub (Seq (Chr c) r) repl s = s.
Proof.
  intros H. unfold Re.sub. rewrite (scan_chr_absent r H).
  clear H. induction s as [|x s IH]; simpl; [reflexivity | now rewrite IH].
Qed.

(** Substitution does not lengthen the subject when every match is at
    least as long as the replacement. *)
Lemma sub_length (r : regex) (repl : str) :
  (forall suf n g, hd_error (rmatch r suf) = Some (n, g) -> length repl <= n) ->
  forall s, length (Re.sub r repl s) <= length s.
Proof.
  intros Hr. unfold Re.sub.
  set (f := fun p => match p with Hit _ _ => repl | Gap c => [c] end).
  assert (G : forall s k, length (flat_map f (scan r k s)) <= length s - k).
  { induction s as [|c s IH]; intros k.
    - destruct k as [|k]; cbn [scan]; [|simpl; lia].
      destruct (rmatch r []) as [|[n g] l] eqn:E; [simpl; lia|].
      assert (In (n, g) (rmatch r [])) as Hin by (rewrite E; now left).
      apply rmatch_le_length in Hin. simpl in Hin.
      specialize (Hr [] n g). rewrite E in Hr. specialize (Hr eq_refl).
      assert (n = 0) as -> by lia.
      cbn [flat_map f]. rewrite length_app. simpl. lia.
    - destruct k as [|k]; cbn [scan].
      + destruct (rmatch r (c :: s)) as [|[n g] l] eqn:E.
        * cbn [flat_map f]. rewrite length_app. specialize (IH 0).
          cbn [length]. lia.
        * assert (In (n, g) (rmatch r (c :: s))) as Hin by (rewrite E; now left).
          apply rmatch_le_length in Hin. cbn [length] in Hin.
          specialize (Hr (c :: s) n g). rewrite E in Hr. specialize (Hr eq_refl).
          cbn [flat_map f]. rewrite length_app.
          destruct n as [|n].
          -- cbn [flat_map f]. rewrite length_app. specialize (IH 0).
             cbn [length]. lia.
          -- specialize (IH n). cbn [length]. lia.
      + specialize (IH k). cbn [length]. lia. }
  intros s. specialize (G s 0). lia.
Qed.

Lemma hd_error_In {A} (l : list A) (x : A) : hd_error l = Some x -> In x l.
Proof. destruct l; simpl; [discriminate | intros [= ->]; now left]. Qed.

Lemma in_rmatch_seq (r1 r2 : regex) (s : str) (n : nat) (g : option str) :
  In (n, g) (rmatch (Seq r1 r2) s) ->
  exists n1 g1 n2 g2,
    In (n1, g1) (rmatch r1 s) /\ In (n2, g2) (rmatch r2 (skipn n1 s))
    /\ n = n1 + n2 /\ g = merge_group g1 g2.
Proof.
  cbn [rmatch]. intros H.
  apply in_flat_map in H as [[n1 g1] [H1 H2]].
  apply in_map_iff in H2 as [[n2 g2] [E H2]]. simpl in *.
  injection E as <- <-. now exists n1, g1, n2, g2.
Qed.

Lemma in_rmatch_chr (c : ascii) (s : str) (n : nat) (g : option str) :
  In (n, g) (rmatch (Chr c) s) -> n = 1 /\ g = None /\ exists s', s = c :: s'.
Proof.
  cbn [rmatch]. destruct s as [|x s]; [contradiction|].
  destruct (Ascii.eqb_spec x c) as [-> | _]; [|contradiction].
  intros [H | []]. injection H as <- <-. repeat split. now exists s.
Qed.

Lemma in_rmatch_lit (l s : str) (n : nat) (g : option str) :
  In (n, g) (rmatch (Lit l) s) -> n = length l /\ g = None /\ length l <= length s.
Proof.
  cbn [rmatch]. destruct (Py.startswith l s) eqn:E; [|contradiction].
  intros [H | []]. injection H as <- <-. repeat split.
  now apply startswith_length.
Qed.

Lemma findall_group_inv (r : regex) (s t : str) :
  In t (Re.findall_group r s) ->
  exists pre suf n g, s = pre ++ suf
                      /\ In (n, g) (rmatch r suf) /\ t = gtext g.
Proof.
  unfold Re.findall_group. intros H.
  apply in_flat_map in H as [[c | m g] [H1 H2]]; [contradiction|].
  apply scan_hit in H1 as (pre & suf & n & E & H1 & _).
  exists pre, suf, n, g. repeat split; auto using hd_error_In.
  destruct g; destruct H2 as [<- | []]; reflexivity.
Qed.

(** What a substitution writes comes from the subject or the replacement. *)
Lemma sub_forall (P : ascii -> Prop) (r : regex) (repl s : str) :
  Forall P s -> Forall P repl -> Forall P (Re.sub r repl s).
Proof.
  intros Hs Hr. unfold Re.sub. apply Forall_forall. intros c Hc.
  apply in_flat_map in Hc as [[x | m g] [H1 H2]].
  - destruct H2 as [<- | []]. apply scan_gap in H1.
    now apply (proj1 (Forall_forall P s) Hs).
  - now apply (proj1 (Forall_forall P repl) Hr).
Qed.

Lemma firstn_span (p : ascii -> bool) :
  forall s n, n <= span p s -> Forall (fun c => p c = true) (firstn n s).
Proof.
  induction s as [|c s IH]; intros n L.
  - rewrite firstn_nil. constructor.
  - destruct n as [|n]; [constructor|]. cbn [span] in L.
    destruct (p c) eqn:E; [|lia].
    cbn [firstn]. constructor; [exact E | apply IH; lia].
Qed.

(** The group of [([...]+)] holds characters of the set only. *)
Lemma in_rmatch_group_plus (p : ascii -> bool) (s : str) (n : nat) (g : option str) :
  In (n, g) (rmatch (Group (Plus p)) s) ->
  exists t, g = Some t /\ Forall (fun c => p c = true) t.
Proof.
  cbn [rmatch]. rewrite map_map. intros H.
  apply in_map_iff in H as [k [E H]]. cbn [fst] in E.
  injection E as <- <-. apply in_rev, in_seq in H.
  eexists. split; [reflexivity | apply firstn_span; lia].
Qed.

Lemma In_skipn {A} (x : A) : forall n l, In x (skipn n l) -> In x l.
Proof.
  induction n as [|n IH]; intros [|y l] H; cbn [skipn] in H; auto.
  right; auto.
Qed.

(** A quoted span has its two quotes. *)
Lemma quoted_length (q : ascii) (p : ascii -> bool) (suf : str) (n : nat) (g : option str) :
  hd_error (rmatch (Seq (Chr q) (Seq (Star p) (Chr q))) suf) = Some (n, g) -> 2 <= n.
Proof.
  intros H. apply hd_error_In, in_rmatch_seq in H
    as (n1 & g1 & n2 & g2 & H1 & H2 & -> & _).
  apply in_rmatch_chr in H1 as [-> _].
  apply in_rmatch_seq in H2 as (n3 & g3 & n4 & g4 & _ & H4 & -> & _).
  apply in_rmatch_chr in H4 as [-> _]. lia.
Qed.

End MatcherFacts.

(** ** The calculator *)

Section CalculatorFacts.

Lemma calculate_fuel_S (fuel : nat) (selector : str) :
  calculate_fuel (S fuel) selector =
  if Py.contains (lit "style=") (Py.lower selector) then Some (1, 0, 0, 0)%Z
  else
    match _count_pseudo_classes (calculate_fuel fuel) (_clean_selector selector) with
    | Some pseudo =>
        Some (0, Py.len (Re.findall Pat.id (_clean_selector selector)),
              Py.len (Re.findall Pat.class (_clean_selector selector))
              + Py.len (Re.findall Pat.attribute (_clean_selector selector))
              + pseudo,
              _count_elements (_clean_selector selector)
              + Py.len (Re.findall Pat.pseudo_element (_clean_selector selector)))%Z
    | None => None
    end.
Proof. reflexivity. Qed.

Lemma clean_length (selector : str) :
  length (_clean_selector selector) <= length selector.
Proof.
  unfold _clean_selector.
  etransitivity; [apply strip_length|].
  etransitivity; [apply sub_length; intros suf n g; apply quoted_length|].
  apply sub_length; intros suf n g; apply quoted_length.
Qed.

(** The argument of a [:not(...)] is shorter than the selector. *)
Lemma not_args_shorter (s t : str) :
  In t (Re.findall_group Pat.not_fn s) -> length t < length s.
Proof.
  intros H. apply findall_group_inv in H as (pre & suf & n & g & -> & H & ->).
  rewrite length_app.
  apply in_rmatch_seq in H as (n1 & g1 & n2 & g2 & H1 & H2 & -> & ->).
  apply in_rmatch_lit in H1 as (-> & -> & L1).
  change (length (lit ":not(")) with 5 in *.
  destruct g2 as [t|]; cbn [merge_group gtext length].
  - apply rmatch_group_length in H2. rewrite length_skipn in H2. lia.
  - lia.
Qed.

(** So is the argument list of an [:is(...)] or [:has(...)]. *)
Lemma is_args_shorter (s t : str) :
  In t (Re.findall_group Pat.is_has_fn s) -> length t < length s.
Proof.
  intros H. apply findall_group_inv in H as (pre & suf & n & g & -> & H & ->).
  rewrite length_app.
  apply in_rmatch_seq in H as (n1 & g1 & n2 & g2 & H1 & H2 & -> & ->).
  apply in_rmatch_chr in H1 as (-> & -> & s' & ->).
  cbn [skipn length] in *.
  destruct g2 as [t|]; cbn [merge_group gtext length].
  - apply rmatch_group_length in H2. lia.
  - lia.
Qed.

Lemma recursive_args_shorter (s a : str) :
  In a (recursive_args s) -> length a < length s.
Proof.
  unfold recursive_args. intros H. apply in_app_or in H as [H | H].
  - now apply not_args_shorter.
  - apply in_flat_map in H as [args [H1 H2]].
    apply in_map_iff in H2 as [x [<- H2]].
    apply is_args_shorter in H1. apply split_length in H2.
    pose proof (strip_length x). lia.
Qed.

(** *** What [_count_pseudo_classes] depends on *)

Lemma count_not_ext (calc1 calc2 : str -> option Specificity) (l : list str) :
  (forall a, In a l -> calc1 a = calc2 a) ->
  forall c, count_not calc1 l c = count_not calc2 l c.
Proof.
  induction l as [|a l IH]; intros H c; simpl; [reflexivity|].
  rewrite (H a (or_introl eq_refl)).
  destruct (calc2 a); [|reflexivity].
  apply IH. intros b Hb. apply H. now right.
Qed.

Lemma classes_each_ext (calc1 calc2 : str -> option Specificity) (l : list str) :
  (forall x, In x l -> calc1 (Py.strip x) = calc2 (Py.strip x)) ->
  classes_each calc1 l = classes_each calc2 l.
Proof.
  induction l as [|x l IH]; intros H; simpl; [reflexivity|].
  rewrite (H x (or_introl eq_refl)), IH; [reflexivity|].
  intros y Hy. apply H. now right.
Qed.

Lemma count_is_ext (calc1 calc2 : str -> option Specificity) (l : list str) :
  (forall args x, In args l -> In x (Py.split "," args) ->
                  calc1 (Py.strip x) = calc2 (Py.strip x)) ->
  forall c, count_is calc1 l c = count_is calc2 l c.
Proof.
  induction l as [|args l IH]; intros H c; simpl; [reflexivity|].
  rewrite (@classes_each_ext calc1 calc2 (Py.split "," args)).
  - destruct (classes_each calc2 (Py.split "," args)); [|reflexivity].
    apply IH. intros a x Ha. apply H. now right.
  - intros x Hx. apply (H args x); [now left | exact Hx].
Qed.

(** The result only depends on what [calculate] returns on the arguments
    of the functional pseudo-classes. *)
Lemma count_pseudo_ext (calc1 calc2 : str -> option Specificity) (s : str) :
  (forall a, In a (recursive_args s) -> calc1 a = calc2 a) ->
  _count_pseudo_classes calc1 s = _count_pseudo_classes calc2 s.
Proof.
  intros H. unfold _count_pseudo_classes.
  rewrite (@count_not_ext calc1 calc2).
  - destruct (count_not calc2 _ _); [|reflexivity].
    apply count_is_ext. intros args x Ha Hx. apply H.
    unfold recursive_args. apply in_or_app. right.
    apply in_flat_map. exists args. split; [exact Ha|].
    now apply in_map.
  - intros a Ha. apply H. unfold recursive_args.
    apply in_or_app. now left.
Qed.

(** *** The count in closed form *)

Lemma count_not_closed (f : str -> Specificity) (l : list str) :
  forall c, count_not (fun a => Some (f a)) l c
            = Some (c + zsum (map (fun arg => classes_of (f arg)) l))%Z.
Proof.
  induction l as [|a l IH]; intros c; simpl.
  - f_equal. lia.
  - rewrite IH. f_equal. lia.
Qed.

Lemma classes_each_closed (f : str -> Specificity) (l : list str) :
  classes_each (fun a => Some (f a)) l
  = Some (map (fun x => classes_of (f (Py.strip x))) l).
Proof.
  induction l as [|x l IH]; simpl; [reflexivity|]. now rewrite IH.
Qed.

Lemma count_is_closed (f : str -> Specificity) (l : list str) :
  forall c, count_is (fun a => Some (f a)) l c
            = Some (c + zsum (map (fun args =>
                                     Py.max_default 0 (candidate_classes f args)) l))%Z.
Proof.
  induction l as [|args l IH]; intros c; simpl.
  - f_equal. lia.
  - rewrite classes_each_closed, IH. unfold candidate_classes. f_equal. lia.
Qed.

Lemma count_pseudo_closed (f : str -> Specificity) (s : str) :
  _count_pseudo_classes (fun a => Some (f a)) s = Some (pseudo_count f s).
Proof.
  unfold _count_pseudo_classes, pseudo_count.
  rewrite count_not_closed, count_is_closed. f_equal; lia.
Qed.

Lemma zsum_nonneg (l : list Z) :
  Forall (fun x => 0 <= x)%Z l -> (0 <= zsum l)%Z.
Proof. induction 1; simpl; lia. Qed.

Lemma pseudo_count_nonneg (f : str -> Specificity) (s : str) :
  (forall a, In a (recursive_args s) -> 0 <= classes_of (f a))%Z ->
  (0 <= pseudo_count f s)%Z.
Proof.
  intros H. unfold pseudo_count.
  pose proof (len_nonneg (Re.findall Pat.pseudo_class s)).
  assert (0 <= zsum (map (fun arg => classes_of (f arg))
                       (Re.findall_group Pat.not_fn s)))%Z.
  { apply zsum_nonneg, Forall_forall. intros x Hx.
    apply in_map_iff in Hx as [a [<- Ha]]. apply H.
    unfold recursive_args. apply in_or_app. now left. }
  assert (0 <= zsum (map (fun args => Py.max_default 0 (candidate_classes f args))
                       (Re.findall_group Pat.is_has_fn s)))%Z.
  { apply zsum_nonneg, Forall_forall. intros x Hx.
    apply in_map_iff in Hx as [args [<- Ha]].
    apply max_default_nonneg, Forall_forall. intros y Hy.
    apply in_map_iff in Hy as [p [<- Hp]]. apply H.
    unfold recursive_args. apply in_or_app. right.
    apply in_flat_map. exists args. split; [exact Ha | now apply in_map]. }
  lia.
Qed.

(** *** The depth of the calls *)

Lemma other_than_forall (x : ascii) (t : str) :
  Forall (fun c => Pat.other_than x c = true) t -> Forall (fun c => c <> x) t.
Proof.
  apply Forall_impl. intros c H. unfold Pat.other_than in H.
  apply negb_true_iff in H. now apply Ascii.eqb_neq.
Qed.

(** A match of either functional pattern ends with a closing parenthesis
    and captures a text without one. *)
Lemma close_group_inv (suf : str) (n : nat) (g : option str) :
  In (n, g) (rmatch (Seq (Group (Plus (Pat.other_than ")"))) (Chr ")")) suf) ->
  In ")"%char suf /\ no_close (gtext g).
Proof.
  intros H. apply in_rmatch_seq in H as (n1 & g1 & n2 & g2 & H1 & H2 & -> & ->).
  apply in_rmatch_group_plus in H1 as (t & -> & Ht).
  apply in_rmatch_chr in H2 as (-> & -> & s' & E). split.
  - apply (@In_skipn _ _ n1). rewrite E. now left.
  - now apply other_than_forall.
Qed.

Lemma not_fn_inv (suf : str) (n : nat) (g : option str) :
  In (n, g) (rmatch Pat.not_fn suf) -> In ")"%char suf /\ no_close (gtext g).
Proof.
  intros H. apply in_rmatch_seq in H as (n1 & g1 & n2 & g2 & H1 & H2 & -> & ->).
  apply in_rmatch_lit in H1 as (-> & -> & _).
  apply close_group_inv in H2 as [H2 H3]. split.
  - eapply In_skipn, H2.
  - now destruct g2.
Qed.

Lemma is_has_fn_inv (suf : str) (n : nat) (g : option str) :
  In (n, g) (rmatch Pat.is_has_fn suf) -> In ")"%char suf /\ no_close (gtext g).
Proof.
  intros H. apply in_rmatch_seq in H as (n1 & g1 & n2 & g2 & H1 & H2 & -> & ->).
  apply in_rmatch_chr in H1 as (-> & -> & _).
  apply in_rmatch_seq in H2 as (n3 & g3 & n4 & g4 & H3 & H4 & -> & ->).
  assert (g3 = None) as ->.
  { cbn [Pat.words rmatch] in H3.
    apply in_app_or in H3 as [H3 | H3]; now apply in_rmatch_lit in H3. }
  apply in_rmatch_seq in H4 as (n5 & g5 & n6 & g6 & H5 & H6 & -> & ->).
  apply in_rmatch_chr in H5 as (-> & -> & _).
  apply close_group_inv in H6 as [H6 H7]. split.
  - eapply In_skipn, In_skipn, In_skipn, H6.
  - now destruct g6.
Qed.

Lemma findall_group_no_close (r : regex) (s : str) :
  (forall suf n g, In (n, g) (rmatch r suf) -> In ")"%char suf /\ no_close (gtext g)) ->
  (forall t, In t (Re.findall_group r s) -> no_close t)
  /\ (no_close s -> Re.findall_group r s = []).
Proof.
  intros Hr. split.
  - intros t H. apply findall_group_inv in H as (pre & suf & n & g & _ & H & ->).
    now apply Hr in H.
  - intros Hs. destruct (Re.findall_group r s) as [|t l] eqn:E; [reflexivity|].
    assert (In t (Re.findall_group r s)) as H by (rewrite E; now left).
    apply findall_group_inv in H as (pre & suf & n & g & -> & H & _).
    apply Hr in H as [H _].
    apply Forall_app in Hs as [_ Hs].
    now apply (proj1 (Forall_forall _ _) Hs) in H.
Qed.

(** No argument handed to [calculate] holds a closing parenthesis. *)
Lemma recursive_args_no_close (s a : str) :
  In a (recursive_args s) -> no_close a.
Proof.
  unfold recursive_args. intros H. apply in_app_or in H as [H | H].
  - now apply (proj1 (@findall_group_no_close _ s not_fn_inv)).
  - apply in_flat_map in H as [args [H1 H2]].
    apply in_map_iff in H2 as [x [<- H2]].
    apply (proj1 (@findall_group_no_close _ s is_has_fn_inv)) in H1.
    apply strip_forall. eapply split_forall; eassumption.
Qed.

(** Without a closing parenthesis there is nothing to call [calculate] on. *)
Lemma no_close_no_args (s : str) : no_close s -> recursive_args s = [].
Proof.
  intros H. unfold recursive_args.
  rewrite (proj2 (@findall_group_no_close _ s not_fn_inv) H).
  now rewrite (proj2 (@findall_group_no_close _ s is_has_fn_inv) H).
Qed.

Lemma clean_no_close (s : str) : no_close s -> no_close (_clean_selector s).
Proof.
  intros H. unfold _clean_selector.
  apply strip_forall, sub_forall; [apply sub_forall; [exact H|] |];
    repeat constructor; discriminate.
Qed.

(** The calls never nest: an argument has no arguments of its own. *)
Lemma recursive_args_flat (s a : str) :
  In a (recursive_args s) -> recursive_args (_clean_selector a) = [].
Proof.
  intros H. now apply no_close_no_args, clean_no_close, recursive_args_no_close with s.
Qed.

Lemma calculate_fuel_flat (a : str) (n m : nat) :
  recursive_args (_clean_selector a) = [] ->
  calculate_fuel (S n) a = calculate_fuel (S m) a.
Proof.
  intros H. rewrite !calculate_fuel_S.
  rewrite (@count_pseudo_ext (calculate_fuel n) (calculate_fuel m)); [reflexivity|].
  rewrite H. intros x [].
Qed.

(** *** Fuel *)

(** With more fuel than the selector is long, [calculate] returns. *)
Lemma calculate_fuel_total :
  forall fuel s, length s < fuel -> exists r, calculate_fuel fuel s = Some r.
Proof.
  induction fuel as [|fuel IH]; intros s L; [lia|].
  rewrite calculate_fuel_S.
  destruct (Py.contains _ _); [eauto|].
  rewrite (@count_pseudo_ext _ (fun a => Some (or_zero (calculate_fuel fuel a)))).
  - rewrite count_pseudo_closed. eauto.
  - intros a Ha. apply recursive_args_shorter in Ha.
    pose proof (clean_length s).
    destruct (IH a) as [r ->]; [lia | reflexivity].
Qed.

(** Beyond that, the amount of fuel is irrelevant. *)
Lemma calculate_fuel_indep :
  forall n m s, length s < n -> length s < m ->
                calculate_fuel n s = calculate_fuel m s.
Proof.
  induction n as [|n IH]; intros m s Ln Lm; [lia|].
  destruct m as [|m]; [lia|].
  rewrite !calculate_fuel_S.
  destruct (Py.contains _ _); [reflexivity|].
  rewrite (@count_pseudo_ext (calculate_fuel n) (calculate_fuel m)); [reflexivity|].
  intros a Ha. apply recursive_args_shorter in Ha.
  pose proof (clean_length s). apply IH; lia.
Qed.

(** *** The function [calculate] computes *)

Lemma calculate_specificity (s : str) : calculate s = Some (specificity s).
Proof.
  unfold specificity, calculate.
  destruct (@calculate_fuel_total (S (length s)) s) as [r ->]; [lia | reflexivity].
Qed.

Lemma calculate_fuel_specificity (fuel : nat) (s : str) :
  length s < fuel -> calculate_fuel fuel s = Some (specificity s).
Proof.
  intros L. rewrite <- calculate_specificity. unfold calculate.
  apply calculate_fuel_indep; lia.
Qed.

(** Two levels of calls are all [calculate] ever needs. *)
Lemma calculate_fuel_two (fuel : nat) (s : str) :
  2 <= fuel -> calculate_fuel fuel s = Some (specificity s).
Proof.
  intros L. destruct fuel as [|[|n]]; try lia.
  rewrite <- (@calculate_fuel_specificity (S (S (length s))) s) by lia.
  rewrite !calculate_fuel_S.
  rewrite (@count_pseudo_ext (calculate_fuel (S n)) (calculate_fuel (S (length s))));
    [reflexivity|].
  intros a Ha. apply calculate_fuel_flat. now apply recursive_args_flat with (_clean_selector s).
Qed.


(** The equation [calculate] satisfies. *)
Lemma calculate_unfold (selector : str) :
  calculate selector =
  if Py.contains (lit "style=") (Py.lower selector) then Some (1, 0, 0, 0)%Z
  else
    let cleaned := _clean_selector selector in
    Some (0, Py.len (Re.findall Pat.id cleaned),
          Py.len (Re.findall Pat.class cleaned)
          + Py.len (Re.findall Pat.attribute cleaned)
          + pseudo_count specificity cleaned,
          _count_elements cleaned
          + Py.len (Re.findall Pat.pseudo_element cleaned))%Z.
Proof.
  unfold calculate. rewrite calculate_fuel_S.
  destruct (Py.contains _ _); [reflexivity|]. cbv zeta.
  rewrite (@count_pseudo_ext _ (fun a => Some (specificity a))).
  - now rewrite count_pseudo_closed.
  - intros a Ha. apply recursive_args_shorter in Ha.
    pose proof (clean_length selector).
    apply calculate_fuel_specificity. lia.
Qed.

Lemma count_part_ge (part : str) (count : Z) : (count <= count_part part count)%Z.
Proof.
  unfold count_part.
  destruct (_ && _); [|lia]. destruct (Re.matches _ _); lia.
Qed.

Lemma count_elements_nonneg (s : str) : (0 <= _count_elements s)%Z.
Proof.
  unfold _count_elements.
  assert (G : forall l c, (c <= fold_left (fun count part => count_part part count) l c)%Z).
  { induction l as [|x l IH]; intros c; simpl; [lia|].
    specialize (IH (count_part x c)). pose proof (count_part_ge x c). lia. }
  apply G.
Qed.

End CalculatorFacts.

(** ** Inline styles *)

Lemma occurs_ci_iff (p s : str) :
  occurs_ci p s <-> Py.contains p (Py.lower s) = true.
Proof.
  rewrite contains_iff. unfold occurs_ci, Py.lower. split.
  - intros (pre & m & post & -> & <-).
    exists (map Py.lower_char pre), (map Py.lower_char post).
    now rewrite !map_app.
  - intros (pre' & post' & H).
    apply map_eq_app in H as (pre & rest & -> & <- & H).
    apply map_eq_app in H as (m & post & -> & <- & <-).
    now exists pre, m, post.
Qed.

(** C5: a selector in which [style=] occurs, whatever the case of its
    letters, has the specificity (1,0,0,0) and nothing else of it matters;
    a selector in which it does not occur gets the inline component 0. *)
Theorem style_marker_inline (s : str) :
  (occurs_ci (lit "style=") s -> calculate s = Some (1, 0, 0, 0)%Z)
  /\ (~ occurs_ci (lit "style=") s ->
      exists r, calculate s = Some r /\ inline_of r = 0%Z).
Proof.
  rewrite occurs_ci_iff, calculate_unfold. split.
  - now intros ->.
  - intros H. apply not_true_is_false in H. rewrite H. eauto.
Qed.

Lemma style_marker_inline_witness :
  calculate (lit "a[STYLE=x] #id .c") = Some (1, 0, 0, 0)%Z
  /\ (exists r, calculate (lit "div.a") = Some r /\ inline_of r = 0%Z).
Proof.
  split.
  - apply (proj1 (style_marker_inline (lit "a[STYLE=x] #id .c"))).
    exists (lit "a["), (lit "STYLE="), (lit "x] #id .c"). split; reflexivity.
  - apply (proj2 (style_marker_inline (lit "div.a"))).
    intros H. apply occurs_ci_iff in H. vm_compute in H. discriminate H.
Defined.

(** ** Termination *)

(** C8: [calculate] returns on every string.  The strings it passes to
    itself, the arguments found in the cleaned selector, are strictly
    shorter than the selector, so fuel beyond the length of the selector
    always suffices and the result does not depend on it.  These arguments
    have no arguments of their own, so the calls are never more than two
    deep. *)
Theorem calculate_terminates (s : str) :
  (exists r, calculate s = Some r
             /\ (forall fuel, length s < fuel -> calculate_fuel fuel s = Some r)
             /\ (forall fuel, 2 <= fuel -> calculate_fuel fuel s = Some r))
  /\ Forall (fun arg => length arg < length s
                        /\ recursive_args (_clean_selector arg) = [])
       (recursive_args (_clean_selector s)).
Proof.
  split.
  - exists (specificity s). split; [|split].
    + apply calculate_specificity.
    + intros fuel. apply calculate_fuel_specificity.
    + intros fuel. apply calculate_fuel_two.
  - apply Forall_forall. intros a Ha. split.
    + apply recursive_args_shorter in Ha. pose proof (clean_length s). lia.
    + now apply recursive_args_flat with (_clean_selector s).
Qed.

Lemma calculate_terminates_witness :
  exists r, calculate (lit ":not(.a):is(b, :has(c)") = Some r
            /\ calculate_fuel 100 (lit ":not(.a):is(b, :has(c)") = Some r
            /\ calculate_fuel 2 (lit ":not(.a):is(b, :has(c)") = Some r.
Proof.
  destruct (calculate_terminates (lit ":not(.a):is(b, :has(c)")) as [[r [H1 [H2 H3]]] _].
  exists r. split; [exact H1 | split].
  - apply H2. vm_compute. lia.
  - apply H3. lia.
Defined.

(** ** Non-negative components *)

Lemma specificity_nonneg :
  forall n s, length s < n ->
    (0 <= inline_of (specificity s) /\ 0 <= ids_of (specificity s)
     /\ 0 <= classes_of (specificity s) /\ 0 <= elements_of (specificity s))%Z.
Proof.
  induction n as [|n IH]; intros s L; [lia|].
  unfold specificity. rewrite calculate_unfold.
  destruct (Py.contains _ _); cbn; [lia|].
  pose proof (len_nonneg (Re.findall Pat.id (_clean_selector s))).
  pose proof (len_nonneg (Re.findall Pat.class (_clean_selector s))).
  pose proof (len_nonneg (Re.findall Pat.attribute (_clean_selector s))).
  pose proof (len_nonneg (Re.findall Pat.pseudo_element (_clean_selector s))).
  pose proof (count_elements_nonneg (_clean_selector s)).
  assert (0 <= pseudo_count specificity (_clean_selector s))%Z.
  { apply pseudo_count_nonneg. intros a Ha.
    apply recursive_args_shorter in Ha. pose proof (clean_length s).
    apply IH. lia. }
  lia.
Qed.

(** C9: on every string, [calculate] returns four integers none of which
    is negative. *)
Theorem calculate_nonneg (s : str) :
  exists r, calculate s = Some r
            /\ (0 <= inline_of r)%Z /\ (0 <= ids_of r)%Z
            /\ (0 <= classes_of r)%Z /\ (0 <= elements_of r)%Z.
Proof.
  exists (specificity s). split; [apply calculate_specificity|].
  apply (@specificity_nonneg (S (length s))). lia.
Qed.

(** ** Blank selectors *)

Lemma space_facts (c : ascii) :
  Py.isspace c = true ->
  Ascii.eqb "s" (Py.lower_char c) = false /\ c <> dq /\ c <> "'"%char.
Proof.
  destruct c as [[] [] [] [] [] [] [] []]; vm_compute; intros H;
    try discriminate H; repeat split; discriminate.
Qed.

Lemma spaces_no_style (s : str) :
  Forall (fun c => Py.isspace c = true) s ->
  Py.contains (lit "style=") (Py.lower s) = false.
Proof.
  induction 1 as [|c s Hc _ IH]; [reflexivity|].
  apply space_facts in Hc as [Hc _].
  cbn [Py.lower map Py.contains]. fold (Py.lower s). rewrite IH.
  change (lit "style=") with ("s"%char :: lit "tyle=").
  cbn [Py.startswith]. now rewrite Hc.
Qed.

Lemma spaces_clean (s : str) :
  Forall (fun c => Py.isspace c = true) s -> _clean_selector s = [].
Proof.
  intros H. unfold _clean_selector, Pat.double_quoted, Pat.single_quoted.
  rewrite (@sub_chr_absent dq _ _ s), (@sub_chr_absent "'"%char _ _ s).
  - now apply strip_spaces.
  - eapply Forall_impl; [|exact H]. intros c Hc. now apply space_facts in Hc.
  - eapply Forall_impl; [|exact H]. intros c Hc. now apply space_facts in Hc.
Qed.

(** C10: on the empty string and on a string of white space only,
    [calculate] returns (0,0,0,0). *)
Theorem calculate_blank (s : str) :
  Forall (fun c => Py.isspace c = true) s ->
  calculate s = Some (0, 0, 0, 0)%Z.
Proof.
  intros H. rewrite calculate_unfold, (spaces_no_style H), (spaces_clean H).
  reflexivity.
Qed.

Lemma calculate_blank_witness :
  calculate [] = Some (0, 0, 0, 0)%Z
  /\ calculate [" "; "009"; "010"; " "]%char = Some (0, 0, 0, 0)%Z.
Proof.
  split.
  - apply (@calculate_blank []). constructor.
  - apply (@calculate_blank [" "; "009"; "010"; " "]%char).
    repeat constructor.
Defined.

(** ** The threshold *)

(** C6: a specificity exceeds a threshold exactly when it is strictly
    greater in the lexicographic order, so (0,1,3,3) does not exceed itself
    and (0,2,0,0) exceeds (0,1,3,3). *)
Theorem is_high_iff_lex_gt :
  (forall self spec, is_high_specificity self spec = true <-> lex_gt spec (threshold self))
  /\ is_high_specificity (init_calculator (Some (0, 1, 3, 3)%Z)) (0, 1, 3, 3)%Z = false
  /\ is_high_specificity (init_calculator (Some (0, 1, 3, 3)%Z)) (0, 2, 0, 0)%Z = true.
Proof.
  split; [|split; reflexivity].
  intros [[[[b0 b1] b2] b3]] [[[a0 a1] a2] a3].
  unfold is_high_specificity, lex_gt, tuple_gt. cbn.
  destruct (Z.eqb_spec a0 b0), (Z.eqb_spec a1 b1), (Z.eqb_spec a2 b2),
    (Z.eqb_spec a3 b3); cbn; rewrite ?Z.ltb_lt; lia.
Qed.

(** ** Functional pseudo-classes *)

(** *** Facts about the scan *)

Lemma scan_skip_app (r : regex) (l rest : str) :
  scan r (length l) (l ++ rest) = scan r 0 rest.
Proof. induction l as [|c l IH]; [reflexivity | exact IH]. Qed.

Lemma span_app_all (p : ascii -> bool) (n rest : str) :
  Forall (fun c => p c = true) n ->
  match rest with [] => True | c :: _ => p c = false end ->
  span p (n ++ rest) = length n.
Proof.
  intros Hn Hr. induction Hn as [|c n Hc _ IH]; cbn [app span length].
  - destruct rest as [|c rest]; [reflexivity | cbn [span]; now rewrite Hr].
  - now rewrite Hc, IH.
Qed.

Lemma rev_seq_S (a k : nat) : rev (seq a (S k)) = (a + k) :: rev (seq a k).
Proof. rewrite seq_S, rev_app_distr. reflexivity. Qed.

Lemma firstn_length_app {A} (l r : list A) : firstn (length l) (l ++ r) = l.
Proof. induction l as [|x l IH]; [reflexivity | cbn; now rewrite IH]. Qed.

(** *** The largest candidate *)





(** *** Where the pattern of [:is(...)] and [:has(...)] matches *)



(** A word that starts in [a] and holds no [c] after its first character
    does not reach into a text that starts with [c]. *)
Lemma startswith_within (c : ascii) (r : str) :
  match r with [] => True | x :: _ => x = c end ->
  forall p a, Forall (fun x => x <> c) p ->
              Py.startswith p (a ++ r) = true -> Py.startswith p a = true.
Proof.
  intros Hr. induction p as [|z p IH]; intros a Hp H; [reflexivity|].
  apply Forall_cons_iff in Hp as [Hz Hp].
  destruct a as [|w a]; cbn [app] in H.
  - destruct r as [|x r]; [discriminate H|]. subst x. cbn [Py.startswith] in H.
    apply andb_true_iff in H as [H _]. apply Ascii.eqb_eq in H. now subst.
  - cbn [Py.startswith] in *. apply andb_true_iff in H as [H1 H2].
    rewrite H1. cbn [andb]. now apply IH.
Qed.

Lemma contains_cons_false (p : str) (x : ascii) (t : str) :
  Py.contains p (x :: t) = false ->
  Py.startswith p (x :: t) = false /\ Py.contains p t = false.
Proof. cbn [Py.contains]. intros H. now apply orb_false_iff in H. Qed.


Lemma rmatch_seq_head (r1 r2 : regex) (s : str) (n1 n2 : nat)
    (g1 g2 : option str) (l1 l2 : list (nat * option str)) :
  rmatch r1 s = (n1, g1) :: l1 ->
  rmatch r2 (skipn n1 s) = (n2, g2) :: l2 ->
  exists l, rmatch (Seq r1 r2) s = (n1 + n2, merge_group g1 g2) :: l.
Proof.
  intros E1 E2. cbn [rmatch]. rewrite E1. cbn [flat_map fst snd]. rewrite E2.
  cbn [map app fst snd]. eauto.
Qed.

Lemma skipn_length_app {A} (l r : list A) : skipn (length l) (l ++ r) = r.
Proof. induction l as [|x l IH]; [reflexivity | exact IH]. Qed.



Lemma scan_hit_app (r : regex) (m rest : str) (g : option str)
    (l : list (nat * option str)) :
  m <> [] -> rmatch r (m ++ rest) = (length m, g) :: l ->
  scan r 0 (m ++ rest) = Hit m g :: scan r 0 rest.
Proof.
  intros Hn E. destruct m as [|c m]; [contradiction|].
  cbn [app scan]. change (c :: m ++ rest) with ((c :: m) ++ rest). rewrite E.
  cbn [length]. f_equal.
  - f_equal. apply (firstn_length_app (c :: m) rest).
  - apply scan_skip_app.
Qed.



Lemma scan_gap_one (r : regex) (x : ascii) (s : str) :
  rmatch r (x :: s) = [] -> scan r 0 (x :: s) = Gap x :: scan r 0 s.
Proof. intros E. cbn [scan]. now rewrite E. Qed.


Lemma group_texts_gaps (t : str) (ps : list piece) :
  flat_map (fun p => match p with
                     | Hit _ (Some g) => [g]
                     | Hit _ None => [[]]
                     | Gap _ => []
                     end) (map Gap t ++ ps)
  = flat_map (fun p => match p with
                       | Hit _ (Some g) => [g]
                       | Hit _ None => [[]]
                       | Gap _ => []
                       end) ps.
Proof. induction t as [|c t IH]; [reflexivity | exact IH]. Qed.









(** ** [:where(...)] *)

(** C1: what [calculate] returns on [:where(.a)] and on [.a].  The count of
    pseudo-classes leaves [:where(...)] out, but the pattern for classes
    runs over the whole cleaned selector and finds [.a] inside the
    parentheses, so both selectors get the class component 1. *)
Theorem where_argument_counted :
  _count_pseudo_classes calculate (lit ":where(.a)") = Some 0%Z
  /\ Re.findall Pat.class (lit ":where(.a)") = [lit ".a"]
  /\ calculate (lit ":where(.a)") = Some (0, 0, 1, 0)%Z
  /\ calculate (lit ".a") = Some (0, 0, 1, 0)%Z.
Proof. repeat split; vm_compute; reflexivity. Qed.

(** ** Pseudo-elements *)

(** C3: what [calculate] returns on the eight pseudo-element names, written
    with one colon and with two.  Each adds 1 to the element component.  The
    pattern for pseudo-classes only sets [before], [after], [first-line] and
    [first-letter] aside, so [backdrop], [placeholder], [marker] and
    [selection] are counted as pseudo-classes too and add 1 to the class
    component. *)
Theorem pseudo_element_names :
  map (fun name => calculate (lit ":" ++ lit name))
    ["before"; "after"; "first-line"; "first-letter"]%string
  = repeat (Some (0, 0, 0, 1)%Z) 4
  /\ map (fun name => calculate (lit "::" ++ lit name))
       ["before"; "after"; "first-line"; "first-letter"]%string
     = repeat (Some (0, 0, 0, 1)%Z) 4
  /\ map (fun name => calculate (lit ":" ++ lit name))
       ["backdrop"; "placeholder"; "marker"; "selection"]%string
     = repeat (Some (0, 0, 1, 1)%Z) 4
  /\ map (fun name => calculate (lit "::" ++ lit name))
       ["backdrop"; "placeholder"; "marker"; "selection"]%string
     = repeat (Some (0, 0, 1, 1)%Z) 4
  /\ Re.findall Pat.pseudo_class (lit "::backdrop") = [lit ":backdrop"].
Proof. repeat split; vm_compute; reflexivity. Qed.

(** ** Extraction *)

(** C2, as the code has it: on the example stylesheet [extract_selectors]
    returns [.a], [.b] and [.c].  The prelude of [@media] is dropped; the
    selector of the rule inside the at-rule is kept. *)
Theorem extract_example :
  Re.findall_group Pat.prelude (Re.sub Pat.comment [] example_css)
  = [lit " .a, .b "; lit " @media screen "; lit " .c "]
  /\ extract_selectors example_css = [lit ".a"; lit ".b"; lit ".c"].
Proof. split; vm_compute; reflexivity. Qed.

(** C2, as stated: the result is not [.a], [.b] alone. *)
Lemma extract_example_not_two :
  In (lit ".c") (extract_selectors example_css)
  /\ extract_selectors example_css <> [lit ".a"; lit ".b"].
Proof. split; vm_compute; [tauto | discriminate]. Qed.

(** ** The report *)

(** C4, as the code has it: a stylesheet whose selectors are
    [#id .a .b .c] and [div], analysed with the threshold (0,1,3,3), gives
    a report with 2 selectors none of which is high: (0,1,3,0) and (0,0,0,1)
    are both below the threshold. *)
Theorem analyze_example
    (calculator : CSSSpecificityCalculator) (read : str -> str + str)
    (file_path content : str) :
  threshold calculator = (0, 1, 3, 3)%Z ->
  read file_path = inl content ->
  extract_selectors content = example_selectors ->
  exists report,
    analyze_file calculator read file_path = Some (Analysed report)
    /\ map a_specificity_tuple (selectors report) = [(0, 1, 3, 0); (0, 0, 0, 1)]%Z
    /\ high_specificity_count report = 0%Z
    /\ total_selectors report = 2%Z.
Proof.
  destruct calculator as [t]. cbn [threshold]. intros -> Hr He.
  unfold analyze_file. rewrite Hr, He.
  eexists. split; [vm_compute; reflexivity|]. cbn. auto.
Qed.

Lemma analyze_example_witness :
  exists report,
    analyze_file (init_calculator None)
      (fun _ => inl (lit "#id .a .b .c, div { color: red }")) (lit "a.css")
    = Some (Analysed report)
    /\ map a_specificity_tuple (selectors report) = [(0, 1, 3, 0); (0, 0, 0, 1)]%Z
    /\ high_specificity_count report = 0%Z
    /\ total_selectors report = 2%Z.
Proof.
  apply (@analyze_example (init_calculator None)
           (fun _ => inl (lit "#id .a .b .c, div { color: red }")) (lit "a.css")
           (lit "#id .a .b .c, div { color: red }"));
    vm_compute; reflexivity.
Defined.

(** C4, as stated: on such a stylesheet the count of high selectors is not 1. *)
Lemma analyze_example_not_one :
  exists content report,
    extract_selectors content = example_selectors
    /\ analyze_file (init_calculator (Some (0, 1, 3, 3)%Z)) (fun _ => inl content)
         (lit "a.css") = Some (Analysed report)
    /\ total_selectors report = 2%Z
    /\ high_specificity_count report <> 1%Z.
Proof.
  exists (lit "#id .a .b .c, div { color: red }"). eexists.
  split; [vm_compute; reflexivity|].
  split; [vm_compute; reflexivity|].
  split; [reflexivity | discriminate].
Qed.

(** * Further properties of the analyzer *)

(** ** What [extract_selectors] returns *)

Lemma lstrip_app (a b : str) :
  Py.lstrip (a ++ b) = match Py.lstrip a with [] => Py.lstrip b | _ => Py.lstrip a ++ b end.
Proof.
  induction a as [|c a IH]; simpl.
  - now destruct (Py.lstrip b).
  - destruct (Py.isspace c); [exact IH | reflexivity].
Qed.

Lemma lstrip_head (s : str) :
  match Py.lstrip s with [] => True | c :: _ => Py.isspace c = false end.
Proof.
  induction s as [|c s IH]; simpl; [exact I|].
  destruct (Py.isspace c) eqn:E; [exact IH | exact E].
Qed.

Lemma lstrip_fixed (s : str) :
  match s with [] => True | c :: _ => Py.isspace c = false end -> Py.lstrip s = s.
Proof. destruct s as [|c s]; simpl; [reflexivity | now intros ->]. Qed.

Lemma lstrip_idem (s : str) : Py.lstrip (Py.lstrip s) = Py.lstrip s.
Proof. apply lstrip_fixed, lstrip_head. Qed.

(** Stripping on the right keeps a first character that is no space. *)
Lemma rstrip_cons (c : ascii) (s : str) :
  Py.isspace c = false -> exists t, Py.rstrip (c :: s) = c :: t.
Proof.
  intros Hc. unfold Py.rstrip. cbn [rev]. rewrite lstrip_app.
  destruct (Py.lstrip (rev s)) as [|x l] eqn:E.
  - exists []. simpl. now rewrite Hc.
  - rewrite rev_app_distr. now eexists.
Qed.

(** A stripped string is left alone by [strip]. *)
Lemma strip_idem (s : str) : Py.strip (Py.strip s) = Py.strip s.
Proof.
  unfold Py.strip.
  assert (L : Py.lstrip (Py.rstrip (Py.lstrip s)) = Py.rstrip (Py.lstrip s)).
  { apply lstrip_fixed. pose proof (lstrip_head s) as H.
    destruct (Py.lstrip s) as [|c t]; [exact I|].
    destruct (@rstrip_cons c t H) as [u ->]. exact H. }
  rewrite L. unfold Py.rstrip at 1 2. rewrite rev_involutive, lstrip_idem.
  reflexivity.
Qed.

Lemma split_no_sep (sep : ascii) (s x : str) :
  In x (Py.split sep s) -> Forall (fun c => c <> sep) x.
Proof.
  revert x; induction s as [|c s IH]; intros x; simpl.
  - intros [<- | []]. constructor.
  - destruct (Ascii.eqb_spec c sep) as [-> | Hc].
    + intros [<- | H]; [constructor | auto].
    + destruct (Py.split sep s) as [|y ys].
      * intros [<- | []]. now repeat constructor.
      * intros [<- | H].
        -- constructor; [exact Hc | apply IH; now left].
        -- apply IH. now right.
Qed.

Lemma prelude_inv (suf : str) (n : nat) (g : option str) :
  In (n, g) (rmatch Pat.prelude suf) ->
  In "{"%char suf /\ Forall (fun c => Pat.not_brace c = true) (gtext g).
Proof.
  intros H. apply in_rmatch_seq in H as (n1 & g1 & n2 & g2 & H1 & H2 & -> & ->).
  apply in_rmatch_group_plus in H1 as (t & -> & Ht).
  apply in_rmatch_chr in H2 as (-> & -> & s' & E). split.
  - apply (@In_skipn _ _ n1). rewrite E. now left.
  - exact Ht.
Qed.

(** X1: every selector [extract_selectors] returns is non-empty, is left
    alone by [strip] (no white space at either end), does not start with an
    at sign, and holds no comma and no brace. *)
Theorem extract_selectors_shape (css_content selector : str) :
  In selector (extract_selectors css_content) ->
  selector <> []
  /\ Py.strip selector = selector
  /\ Py.startswith (lit "@") selector = false
  /\ Forall (fun c => c <> ","%char /\ c <> "{"%char /\ c <> "}"%char) selector.
Proof.
  unfold extract_selectors, selectors_of_parts. intros H.
  apply in_flat_map in H as [m [Hm H]].
  destruct (Py.startswith (lit "@") (Py.strip m)); [contradiction|].
  apply filter_In in H as [H Hf].
  apply in_map_iff in H as [part [<- Hp]].
  apply andb_true_iff in Hf as [Hf1 Hf2].
  apply negb_true_iff in Hf2.
  repeat split.
  - intros E. rewrite E in Hf1. discriminate.
  - apply strip_idem.
  - exact Hf2.
  - apply strip_forall.
    apply findall_group_inv in Hm as (pre & suf & n & g & _ & Hm & ->).
    apply prelude_inv in Hm as [_ Hm].
    pose proof (@split_no_sep _ _ _ Hp) as Hc.
    pose proof (@split_forall _ _ _ _ Hm Hp) as Hb.
    apply Forall_forall. intros c Hin.
    pose proof (proj1 (Forall_forall _ _) Hc c Hin) as H1.
    pose proof (proj1 (Forall_forall _ _) Hb c Hin) as H2.
    unfold Pat.not_brace in H2. apply negb_true_iff, orb_false_iff in H2 as [H2 H3].
    apply Ascii.eqb_neq in H2, H3. auto.
Qed.

Lemma extract_selectors_shape_witness :
  lit "a > b" <> []
  /\ Py.strip (lit "a > b") = lit "a > b"
  /\ Py.startswith (lit "@") (lit "a > b") = false
  /\ Forall (fun c => c <> ","%char /\ c <> "{"%char /\ c <> "}"%char) (lit "a > b").
Proof.
  apply (@extract_selectors_shape (lit "/* x */ h1 , a > b { top: 0 }") (lit "a > b")).
  vm_compute. tauto.
Defined.

(** X2: a text without an opening brace has no selectors. *)
Theorem extract_selectors_no_brace (css_content : str) :
  Forall (fun c => c <> "{"%char) css_content ->
  extract_selectors css_content = [].
Proof.
  intros H. unfold extract_selectors.
  assert (Hs : Forall (fun c => c <> "{"%char) (Re.sub Pat.comment [] css_content))
    by (apply sub_forall; [exact H | constructor]).
  destruct (Re.findall_group Pat.prelude _) as [|t l] eqn:E; [reflexivity|].
  assert (In t (Re.findall_group Pat.prelude (Re.sub Pat.comment [] css_content))) as Hin
      by (rewrite E; now left).
  apply findall_group_inv in Hin as (pre & suf & n & g & Es & Hin & _).
  apply prelude_inv in Hin as [Hin _].
  rewrite Es in Hs. apply Forall_app in Hs as [_ Hs].
  now apply (proj1 (Forall_forall _ _) Hs) in Hin.
Qed.

Lemma extract_selectors_no_brace_witness :
  extract_selectors (lit "a, b /* no rule } here */ c") = [].
Proof.
  apply (@extract_selectors_no_brace (lit "a, b /* no rule } here */ c")).
  repeat constructor; discriminate.
Defined.

(** ** What [analyze_file] reports *)

Lemma analyze_selector_total (self : CSSSpecificityCalculator) (selector : str) :
  analyze_selector self selector = Some (analysis_of self selector).
Proof.
  unfold analyze_selector. now rewrite calculate_specificity.
Qed.

Lemma len_app {A} (l1 l2 : list A) : Py.len (l1 ++ l2) = (Py.len l1 + Py.len l2)%Z.
Proof. unfold Py.len. rewrite length_app. lia. Qed.

(** The loop of [analyze_file]: it appends one entry per selector, in
    order, and counts those that are flagged. *)
Lemma analyze_each_closed (calculator : CSSSpecificityCalculator) (sels : list str) :
  forall results count,
    analyze_each calculator sels results count
    = Some (results ++ map (analysis_of calculator) sels,
            (count + Py.len (filter a_is_high (map (analysis_of calculator) sels)))%Z).
Proof.
  induction sels as [|x sels IH]; intros results count; cbn [analyze_each map filter].
  - rewrite app_nil_r. do 2 f_equal. unfold Py.len. simpl. lia.
  - rewrite analyze_selector_total, IH, <- app_assoc. cbn [app].
    destruct (a_is_high (analysis_of calculator x)); do 2 f_equal.
    + unfold Py.len. cbn [length]. lia.
Qed.

Lemma filter_len_le {A} (f : A -> bool) (l : list A) :
  (0 <= Py.len (filter f l) <= Py.len l)%Z.
Proof.
  unfold Py.len. pose proof (filter_length_le f l). lia.
Qed.

(** X3: [analyze_file] always returns.  When the file cannot be read it
    returns the error entry with the text of the exception.  Otherwise it
    returns a report for the given path with one entry per extracted
    selector, in order; [total_selectors] is the number of entries,
    [high_specificity_count] is the number of flagged entries and lies
    between 0 and the total; each entry carries what [calculate] returns on
    its selector, the formatted tuple, and the flag of the comparison with
    the threshold. *)
Theorem analyze_file_report
    (calculator : CSSSpecificityCalculator) (read : str -> str + str) (file_path : str) :
  match read file_path with
  | inr e =>
      analyze_file calculator read file_path
      = Some (Failed (lit "Failed to read file: " ++ e))
  | inl content =>
      exists report,
        analyze_file calculator read file_path = Some (Analysed report)
        /\ file report = file_path
        /\ map a_selector (selectors report) = extract_selectors content
        /\ total_selectors report = Py.len (selectors report)
        /\ high_specificity_count report = Py.len (filter a_is_high (selectors report))
        /\ (0 <= high_specificity_count report <= total_selectors report)%Z
        /\ Forall (fun a =>
                     calculate (a_selector a) = Some (a_specificity_tuple a)
                     /\ a_specificity a = format_specificity (a_specificity_tuple a)
                     /\ a_is_high a = tuple_gt (a_specificity_tuple a) (threshold calculator)
                     /\ a_threshold a = format_specificity (threshold calculator))
             (selectors report)
  end.
Proof.
  unfold analyze_file. destruct (read file_path) as [content | e]; [|reflexivity].
  rewrite analyze_each_closed. cbn [app]. eexists. split; [reflexivity|].
  cbn [file selectors total_selectors high_specificity_count].
  repeat split.
  - rewrite map_map. cbn [analysis_of a_selector]. apply map_id.
  - unfold Py.len. now rewrite length_map.
  - apply filter_len_le.
  - pose proof (filter_len_le a_is_high
                  (map (analysis_of calculator) (extract_selectors content))) as [_ H].
    unfold Py.len in *. rewrite length_map in H. exact H.
  - apply Forall_forall. intros a Ha. apply in_map_iff in Ha as [x [<- _]].
    cbn [analysis_of a_selector a_specificity_tuple a_specificity a_is_high a_threshold].
    repeat split. apply calculate_specificity.
Qed.

(** ** Moving the threshold *)

Lemma tuple_gt_lex (a b : Specificity) : tuple_gt a b = true <-> lex_gt a b.
Proof.
  destruct a as [[[a0 a1] a2] a3], b as [[[b0 b1] b2] b3].
  unfold lex_gt, tuple_gt. cbn.
  destruct (Z.eqb_spec a0 b0), (Z.eqb_spec a1 b1), (Z.eqb_spec a2 b2),
    (Z.eqb_spec a3 b3); cbn; rewrite ?Z.ltb_lt; lia.
Qed.

Lemma tuple_gt_trans (a b c : Specificity) :
  tuple_gt a b = true -> tuple_gt b c = true -> tuple_gt a c = true.
Proof.
  rewrite !tuple_gt_lex.
  destruct a as [[[a0 a1] a2] a3], b as [[[b0 b1] b2] b3], c as [[[c0 c1] c2] c3].
  unfold lex_gt. cbn. lia.
Qed.

Lemma tuple_gt_pointwise (a b t : Specificity) :
  pointwise_le a b -> tuple_gt a t = true -> tuple_gt b t = true.
Proof.
  destruct a as [[[a0 a1] a2] a3], b as [[[b0 b1] b2] b3], t as [[[t0 t1] t2] t3].
  unfold pointwise_le, tuple_gt. cbn. intros (H0 & H1 & H2 & H3).
  destruct (Z.eqb_spec a0 t0), (Z.eqb_spec a1 t1), (Z.eqb_spec a2 t2),
    (Z.eqb_spec a3 t3), (Z.eqb_spec b0 t0), (Z.eqb_spec b1 t1), (Z.eqb_spec b2 t2),
    (Z.eqb_spec b3 t3); cbn; rewrite ?Z.ltb_lt; intros; try discriminate; lia.
Qed.

(** X4: a specificity that is high stays high when any of its components
    grows, and when the threshold is replaced by one it exceeds; and no
    specificity is high against itself as threshold. *)
Theorem is_high_monotone (self lower : CSSSpecificityCalculator) (a b : Specificity) :
  is_high_specificity self a = true ->
  (pointwise_le a b -> is_high_specificity self b = true)
  /\ (tuple_gt (threshold self) (threshold lower) = true ->
      is_high_specificity lower a = true)
  /\ is_high_specificity (init_calculator (Some a)) a = false.
Proof.
  unfold is_high_specificity. intros H. repeat split.
  - intros L. now apply tuple_gt_pointwise with a.
  - intros L. now apply tuple_gt_trans with (threshold self).
  - destruct a as [[[a0 a1] a2] a3]. cbn. now rewrite !Z.eqb_refl.
Qed.

Lemma is_high_monotone_witness :
  is_high_specificity (init_calculator None) (0, 2, 0, 1)%Z = true
  /\ is_high_specificity (init_calculator (Some (0, 0, 9, 9)%Z)) (0, 2, 0, 0)%Z = true.
Proof.
  assert (H : is_high_specificity (init_calculator None) (0, 2, 0, 0)%Z = true)
    by reflexivity.
  split.
  - apply (proj1 (@is_high_monotone (init_calculator None) (init_calculator None)
                    (0, 2, 0, 0)%Z (0, 2, 0, 1)%Z H)).
    unfold pointwise_le. cbn. lia.
  - apply (proj1 (proj2 (@is_high_monotone (init_calculator None)
                           (init_calculator (Some (0, 0, 9, 9)%Z))
                           (0, 2, 0, 0)%Z (0, 2, 0, 0)%Z H))).
    reflexivity.
Defined.

Lemma filter_len_mono {A} (f g : A -> bool) (l : list A) :
  (forall x, f x = true -> g x = true) ->
  (Py.len (filter f l) <= Py.len (filter g l))%Z.
Proof.
  intros H. unfold Py.len. induction l as [|x l IH]; simpl; [lia|].
  destruct (f x) eqn:E.
  - rewrite (H x E). cbn [length]. lia.
  - destruct (g x); cbn [length]; lia.
Qed.

(** X5: analysing the same file with a higher threshold reports the same
    selectors and flags no more of them. *)
Theorem higher_threshold_flags_fewer
    (low high : CSSSpecificityCalculator) (read : str -> str + str)
    (file_path : str) (r_low r_high : Report) :
  tuple_gt (threshold high) (threshold low) = true ->
  analyze_file low read file_path = Some (Analysed r_low) ->
  analyze_file high read file_path = Some (Analysed r_high) ->
  map a_selector (selectors r_high) = map a_selector (selectors r_low)
  /\ total_selectors r_high = total_selectors r_low
  /\ (high_specificity_count r_high <= high_specificity_count r_low)%Z.
Proof.
  intros Ht. unfold analyze_file.
  destruct (read file_path) as [content | e]; [|discriminate].
  rewrite !analyze_each_closed. cbn [app].
  intros [= <-] [= <-]. cbn [selectors total_selectors high_specificity_count].
  repeat split.
  - now rewrite !map_map.
  - rewrite ?Z.add_0_l.
    induction (extract_selectors content) as [|x l IH]; [reflexivity|].
    cbn [map filter analysis_of a_is_high].
    unfold is_high_specificity.
    destruct (tuple_gt (specificity x) (threshold high)) eqn:E.
    + rewrite (tuple_gt_trans _ _ _ E Ht). unfold Py.len in *. cbn [length]. lia.
    + destruct (tuple_gt (specificity x) (threshold low));
        unfold Py.len in *; cbn [length]; lia.
Qed.

Lemma higher_threshold_flags_fewer_witness :
  exists r_low r_high,
    analyze_file (init_calculator (Some (0, 0, 1, 0)%Z))
      (fun _ => inl (lit "#a .b, .c.d, e { top: 0 }")) (lit "a.css") = Some (Analysed r_low)
    /\ analyze_file (init_calculator (Some (0, 0, 2, 0)%Z))
         (fun _ => inl (lit "#a .b, .c.d, e { top: 0 }")) (lit "a.css") = Some (Analysed r_high)
    /\ (high_specificity_count r_high <= high_specificity_count r_low)%Z.
Proof.
  do 2 eexists. split; [vm_compute; reflexivity|]. split; [vm_compute; reflexivity|].
  eapply (@higher_threshold_flags_fewer
            (init_calculator (Some (0, 0, 1, 0)%Z)) (init_calculator (Some (0, 0, 2, 0)%Z))
            (fun _ => inl (lit "#a .b, .c.d, e { top: 0 }")) (lit "a.css"));
    vm_compute; reflexivity.
Defined.

(** ** Selectors of types, classes, ids and combinators *)

(** Where a pattern cannot start, the scan leaves every character. *)
Lemma scan_gap_app (r : regex) (p : ascii -> bool) :
  (forall x s, p x = false -> rmatch r (x :: s) = []) ->
  forall pre rest, Forall (fun x => p x = false) pre ->
                   scan r 0 (pre ++ rest) = map Gap pre ++ scan r 0 rest.
Proof.
  intros Hr pre rest H. induction H as [|x pre Hx _ IH]; [reflexivity|].
  cbn [app scan]. rewrite (Hr x (pre ++ rest) Hx). cbn [map app]. now rewrite IH.
Qed.

Lemma rmatch_marked (m : ascii) (n rest : str) :
  n <> [] -> name_ok n ->
  match rest with [] => True | c :: _ => Pat.word_dash c = false end ->
  exists l, rmatch (Seq (Chr m) (Plus Pat.word_dash)) (m :: n ++ rest)
            = (S (length n), None) :: l.
Proof.
  intros Hn Hw Hr. cbn [rmatch]. rewrite Ascii.eqb_refl.
  cbn [flat_map fst snd skipn]. rewrite (@span_app_all _ _ _ Hw Hr).
  destruct n as [|c n]; [contradiction|]. cbn [length].
  rewrite rev_seq_S. cbn [map fst snd merge_group Nat.add app]. eauto.
Qed.

(** The patterns [#[\w-]+] and [\.[\w-]+] take a marker and the whole name
    after it. *)
Lemma scan_marked (m : ascii) (n rest : str) :
  n <> [] -> name_ok n ->
  match rest with [] => True | c :: _ => Pat.word_dash c = false end ->
  scan (Seq (Chr m) (Plus Pat.word_dash)) 0 (m :: n ++ rest)
  = Hit (m :: n) None :: scan (Seq (Chr m) (Plus Pat.word_dash)) 0 rest.
Proof.
  intros Hn Hw Hr. destruct (@rmatch_marked m n rest Hn Hw Hr) as [l E].
  cbn [scan]. rewrite E. cbn [firstn]. rewrite firstn_length_app.
  f_equal. apply scan_skip_app.
Qed.

Lemma rmatch_combinator (w rest : str) :
  combinator_ok w ->
  match rest with [] => True | c :: _ => Pat.combinator c = false end ->
  exists l, rmatch Pat.combinators (w ++ rest) = (length w, None) :: l.
Proof.
  intros [Hn Hw] Hr. unfold Pat.combinators. cbn [rmatch].
  rewrite (@span_app_all _ _ _ Hw Hr).
  destruct w as [|c w]; [contradiction|]. cbn [length].
  rewrite rev_seq_S. cbn [map Nat.add]. eauto.
Qed.

(** A run of combinator characters is one match of [[\s>+~]+]. *)
Lemma scan_combinator (w rest : str) :
  combinator_ok w ->
  match rest with [] => True | c :: _ => Pat.combinator c = false end ->
  scan Pat.combinators 0 (w ++ rest) = Hit w None :: scan Pat.combinators 0 rest.
Proof.
  intros Hw Hr. destruct (@rmatch_combinator w rest Hw Hr) as [l E].
  destruct Hw as [Hn Hw]. destruct w as [|c w]; [contradiction|].
  cbn [app scan]. change (c :: w ++ rest) with ((c :: w) ++ rest). rewrite E.
  cbn [length]. f_equal.
  - f_equal. apply (firstn_length_app (c :: w) rest).
  - apply scan_skip_app.
Qed.

Lemma sel_char_facts (c : ascii) :
  sel_char c = true ->
  c <> ":"%char /\ c <> "["%char /\ c <> dq /\ c <> "'"%char
  /\ Py.lower_char c <> "="%char.
Proof.
  destruct c as [[] [] [] [] [] [] [] []]; vm_compute; intros H;
    try discriminate H; repeat split; discriminate.
Qed.

Lemma word_dash_facts (c : ascii) :
  Pat.word_dash c = true ->
  Py.isspace c = false /\ Pat.combinator c = false /\ sel_char c = true
  /\ c <> "#"%char /\ c <> "."%char
  /\ c <> ">"%char /\ c <> "+"%char /\ c <> "~"%char /\ c <> ","%char.
Proof.
  destruct c as [[] [] [] [] [] [] [] []]; vm_compute; intros H;
    try discriminate H; repeat split; discriminate.
Qed.

Lemma combinator_facts (c : ascii) :
  Pat.combinator c = true ->
  Pat.word_dash c = false /\ sel_char c = true /\ c <> "#"%char /\ c <> "."%char.
Proof.
  destruct c as [[] [] [] [] [] [] [] []]; vm_compute; intros H;
    try discriminate H; repeat split; discriminate.
Qed.

Lemma no_equals_no_style (s : str) :
  Forall (fun c => Py.lower_char c <> "="%char) s ->
  Py.contains (lit "style=") (Py.lower s) = false.
Proof.
  intros H. destruct (Py.contains _ _) eqn:E; [|reflexivity].
  apply contains_iff in E as (pre & post & E).
  assert (In "="%char (Py.lower s)) as Hin.
  { rewrite E. apply in_or_app. right. apply in_or_app. left.
    vm_compute. tauto. }
  apply in_map_iff in Hin as [c [Hc Hin]].
  now apply (proj1 (Forall_forall _ _) H) in Hin.
Qed.

Lemma findall_chr_absent (c : ascii) (r : regex) (s : str) :
  Forall (fun x => x <> c) s -> Re.findall (Seq (Chr c) r) s = [].
Proof.
  intros H. unfold Re.findall. rewrite (scan_chr_absent r H).
  clear H. induction s as [|x s IH]; [reflexivity | exact IH].
Qed.

Lemma findall_group_chr_absent (c : ascii) (r : regex) (s : str) :
  Forall (fun x => x <> c) s -> Re.findall_group (Seq (Chr c) r) s = [].
Proof.
  intros H. unfold Re.findall_group. rewrite (scan_chr_absent r H).
  clear H. induction s as [|x s IH]; [reflexivity | exact IH].
Qed.

Lemma not_fn_absent (s : str) :
  Forall (fun x => x <> ":"%char) s -> Re.findall_group Pat.not_fn s = [].
Proof.
  intros H. unfold Re.findall_group.
  assert (E : scan Pat.not_fn 0 s = map Gap s).
  { rewrite <- (app_nil_r s) at 1.
    rewrite (@scan_gap_app Pat.not_fn (fun x => Ascii.eqb x ":")).
    - now rewrite app_nil_r.
    - intros x t Hx. unfold Pat.not_fn. cbn [rmatch lit list_ascii_of_string Py.startswith].
      rewrite Ascii.eqb_sym, Hx. reflexivity.
    - eapply Forall_impl; [|exact H]. intros x Hx. now apply Ascii.eqb_neq. }
  rewrite E. clear. induction s as [|x s IH]; [reflexivity | exact IH].
Qed.

(** On a selector of such characters without outer white space,
    [calculate] comes down to the patterns for ids and classes and to
    [_count_elements]. *)
Lemma calculate_plain (s : str) :
  Forall (fun c => sel_char c = true) s -> Py.strip s = s ->
  calculate s = Some (0, Py.len (Re.findall Pat.id s),
                      Py.len (Re.findall Pat.class s), _count_elements s)%Z.
Proof.
  intros H Hs.
  assert (Hc : forall P : ascii -> Prop,
             (forall c, sel_char c = true -> P c) -> Forall P s)
    by (intros P HP; eapply Forall_impl; [|exact H]; exact HP).
  assert (E : _clean_selector s = s).
  { unfold _clean_selector, Pat.double_quoted, Pat.single_quoted.
    rewrite (@sub_chr_absent dq _ _ s), (@sub_chr_absent "'"%char _ _ s); auto.
    - apply Hc. intros c Hx. now apply sel_char_facts in Hx.
    - apply Hc. intros c Hx. now apply sel_char_facts in Hx. }
  rewrite calculate_unfold, no_equals_no_style, E.
  - cbv zeta. unfold pseudo_count, Pat.attribute, Pat.pseudo_class,
      Pat.pseudo_element, Pat.is_has_fn.
    rewrite !findall_chr_absent, findall_group_chr_absent, not_fn_absent.
    + cbn [map zsum fold_right]. unfold Py.len. cbn [length Z.of_nat].
      rewrite !Z.add_0_r. reflexivity.
    + apply Hc. intros c Hx. now apply sel_char_facts in Hx.
    + apply Hc. intros c Hx. now apply sel_char_facts in Hx.
    + apply Hc. intros c Hx. now apply sel_char_facts in Hx.
    + apply Hc. intros c Hx. now apply sel_char_facts in Hx.
    + apply Hc. intros c Hx. now apply sel_char_facts in Hx.
  - apply Hc. intros c Hx. now apply sel_char_facts in Hx.
Qed.

Lemma scan_gap_marker (b : bool) (pre rest : str) :
  Forall (fun x => x <> marker b) pre ->
  scan (Seq (Chr (marker b)) (Plus Pat.word_dash)) 0 (pre ++ rest)
  = map Gap pre ++ scan (Seq (Chr (marker b)) (Plus Pat.word_dash)) 0 rest.
Proof.
  intros H. apply (@scan_gap_app _ (fun x => Ascii.eqb x (marker b))).
  - intros x t Hx. apply rmatch_chr_head. now apply Ascii.eqb_neq.
  - eapply Forall_impl; [|exact H]. intros x Hx. now apply Ascii.eqb_neq.
Qed.

Lemma findall_gaps (pre : str) (ps : list piece) :
  flat_map (fun p => match p with Hit m _ => [m] | Gap _ => [] end) (map Gap pre ++ ps)
  = flat_map (fun p => match p with Hit m _ => [m] | Gap _ => [] end) ps.
Proof. induction pre as [|x pre IH]; [reflexivity | exact IH]. Qed.

Lemma sub_gaps (repl pre : str) (ps : list piece) :
  flat_map (fun p => match p with Hit _ _ => repl | Gap c => [c] end) (map Gap pre ++ ps)
  = pre ++ flat_map (fun p => match p with Hit _ _ => repl | Gap c => [c] end) ps.
Proof. induction pre as [|x pre IH]; [reflexivity | cbn; now rewrite IH]. Qed.

Lemma marker_not_word (b : bool) : Pat.word_dash (marker b) = false.
Proof. now destruct b. Qed.

Lemma render_parts_head (parts : list (bool * str)) (rest : str) :
  match rest with [] => True | c :: _ => Pat.word_dash c = false end ->
  match render_parts parts ++ rest with
  | [] => True
  | c :: _ => Pat.word_dash c = false
  end.
Proof.
  destruct parts as [|[b n] parts]; [easy|]. intros _. cbn. apply marker_not_word.
Qed.

(** What the pattern for ids (or for classes) finds in, and leaves of, a
    run of class and id parts. *)
Lemma marker_parts (b : bool) (parts : list (bool * str)) (rest : str) :
  Forall (fun p => snd p <> [] /\ name_ok (snd p)) parts ->
  match rest with [] => True | c :: _ => Pat.word_dash c = false end ->
  Re.findall (Seq (Chr (marker b)) (Plus Pat.word_dash)) (render_parts parts ++ rest)
  = map (fun p => marker b :: snd p) (filter (fun p => Bool.eqb (fst p) b) parts)
    ++ Re.findall (Seq (Chr (marker b)) (Plus Pat.word_dash)) rest
  /\ Re.sub (Seq (Chr (marker b)) (Plus Pat.word_dash)) [] (render_parts parts ++ rest)
     = render_parts (filter (fun p => negb (Bool.eqb (fst p) b)) parts)
       ++ Re.sub (Seq (Chr (marker b)) (Plus Pat.word_dash)) [] rest.
Proof.
  intros Hp Hr. unfold Re.findall, Re.sub.
  induction Hp as [|[b' n] parts [Hn Hw] _ IH]; [split; reflexivity|].
  cbn [render_parts flat_map fst snd filter] in *.
  fold (render_parts parts). rewrite <- !app_assoc. cbn [app].
  destruct (Bool.eqb b' b) eqn:E.
  - apply eqb_prop in E. subst b'.
    rewrite (@scan_marked (marker b) n _ Hn Hw (render_parts_head parts rest Hr)).
    cbn [flat_map map fst snd negb app]. destruct IH as [IH1 IH2].
    rewrite IH1, IH2. split; reflexivity.
  - change (marker b' :: n ++ render_parts parts ++ rest)
      with ((marker b' :: n) ++ render_parts parts ++ rest).
    rewrite scan_gap_marker.
    + rewrite findall_gaps, sub_gaps. destruct IH as [IH1 IH2].
      rewrite IH1, IH2. cbn [negb render_parts flat_map fst snd].
      rewrite <- !app_assoc. split; reflexivity.
    + constructor.
      * destruct b, b'; try discriminate; discriminate.
      * eapply Forall_impl; [|exact Hw]. intros c Hc.
        apply word_dash_facts in Hc. destruct b; tauto.
Qed.

Lemma render_selector_cons (c0 c : Compound) (w : str) (rest : list (str * Compound)) :
  render_selector c0 ((w, c) :: rest) = render_compound c0 ++ w ++ render_selector c rest.
Proof. unfold render_selector. cbn [flat_map fst snd]. now rewrite <- app_assoc. Qed.

(** The characters of a compound: no white space, no combinator. *)
Lemma compound_chars (c : Compound) :
  compound_ok c ->
  Forall (fun x => Py.isspace x = false /\ Pat.combinator x = false /\ sel_char x = true)
    (render_compound c).
Proof.
  intros (Ht & Hp & _). unfold render_compound. apply Forall_app. split.
  - eapply Forall_impl; [|exact Ht]. intros x Hx. apply word_dash_facts in Hx. tauto.
  - unfold render_parts. induction Hp as [|[b n] parts [_ Hw] _ IH]; [constructor|].
    cbn [flat_map fst snd]. constructor; [now destruct b|].
    apply Forall_app. split; [|exact IH].
    eapply Forall_impl; [|exact Hw]. intros x Hx. apply word_dash_facts in Hx. tauto.
Qed.

Lemma compound_head (c : Compound) (rest : str) :
  compound_ok c ->
  match render_compound c ++ rest with
  | [] => False
  | x :: _ => Py.isspace x = false /\ Pat.combinator x = false
  end.
Proof.
  intros H. pose proof (compound_chars H) as Hc. destruct H as (_ & _ & Hn).
  destruct (render_compound c) as [|x l]; [contradiction|].
  apply Forall_inv in Hc. cbn. tauto.
Qed.

Lemma combinator_head (w rest : str) :
  combinator_ok w ->
  match w ++ rest with [] => True | c :: _ => Pat.word_dash c = false end.
Proof.
  intros [Hn Hw]. destruct w as [|c w]; [contradiction|].
  apply Forall_inv in Hw. cbn. now apply combinator_facts in Hw.
Qed.

(** How many matches the pattern for ids (or classes) has in a compound
    followed by a combinator or by nothing. *)
Lemma marker_compound (b : bool) (c : Compound) (rest : str) :
  compound_ok c ->
  match rest with [] => True | x :: _ => Pat.word_dash x = false end ->
  Py.len (Re.findall (Seq (Chr (marker b)) (Plus Pat.word_dash)) (render_compound c ++ rest))
  = (count_parts b c
     + Py.len (Re.findall (Seq (Chr (marker b)) (Plus Pat.word_dash)) rest))%Z.
Proof.
  intros (Ht & Hp & _) Hr. unfold render_compound. rewrite <- app_assoc.
  unfold Re.findall at 1. rewrite scan_gap_marker.
  - rewrite findall_gaps. fold (Re.findall (Seq (Chr (marker b)) (Plus Pat.word_dash))
                                  (render_parts (c_parts c) ++ rest)).
    rewrite (proj1 (@marker_parts b _ rest Hp Hr)).
    unfold count_parts, Py.len. rewrite length_app, length_map.
    apply Nat2Z.inj_add.
  - eapply Forall_impl; [|exact Ht]. intros x Hx.
    apply word_dash_facts in Hx. destruct b; tauto.
Qed.

Lemma marker_selector (b : bool) (rest : list (str * Compound)) :
  forall c0,
    compound_ok c0 ->
    Forall (fun wc => combinator_ok (fst wc) /\ compound_ok (snd wc)) rest ->
    Py.len (Re.findall (Seq (Chr (marker b)) (Plus Pat.word_dash)) (render_selector c0 rest))
    = zsum (map (count_parts b) (c0 :: map snd rest)).
Proof.
  induction rest as [|[w c] rest IH]; intros c0 H0 Hr.
  - unfold render_selector. cbn [flat_map]. rewrite marker_compound by easy.
    cbn [map zsum fold_right]. unfold Re.findall. cbn. reflexivity.
  - apply Forall_cons_iff in Hr as [[Hw Hc] Hr]. cbn [fst snd] in *.
    rewrite render_selector_cons, marker_compound; [|exact H0|now apply combinator_head].
    unfold Re.findall at 1. rewrite scan_gap_marker.
    + rewrite findall_gaps.
      fold (Re.findall (Seq (Chr (marker b)) (Plus Pat.word_dash)) (render_selector c rest)).
      rewrite (IH c Hc Hr). cbn [map zsum fold_right snd]. reflexivity.
    + destruct Hw as [_ Hw]. eapply Forall_impl; [|exact Hw]. intros x Hx.
      apply combinator_facts in Hx. destruct b; tauto.
Qed.

Lemma strip_fixed (s : str) :
  match s with [] => True | c :: _ => Py.isspace c = false end ->
  match rev s with [] => True | c :: _ => Py.isspace c = false end ->
  Py.strip s = s.
Proof.
  intros H1 H2. unfold Py.strip, Py.rstrip.
  rewrite (lstrip_fixed s H1), (lstrip_fixed (rev s) H2). apply rev_involutive.
Qed.

Lemma strip_nospace (s : str) :
  Forall (fun c => Py.isspace c = false) s -> Py.strip s = s.
Proof.
  intros H. apply strip_fixed.
  - destruct H; [exact I | assumption].
  - apply Forall_rev in H. destruct H; [exact I | assumption].
Qed.

(** The selector ends with its last compound. *)
Lemma render_selector_last (rest : list (str * Compound)) :
  forall c0,
    compound_ok c0 ->
    Forall (fun wc => combinator_ok (fst wc) /\ compound_ok (snd wc)) rest ->
    exists a c, render_selector c0 rest = a ++ render_compound c /\ compound_ok c.
Proof.
  induction rest as [|[w c] rest IH]; intros c0 H0 Hr.
  - exists [], c0. unfold render_selector. cbn [flat_map]. now rewrite app_nil_r.
  - apply Forall_cons_iff in Hr as [[_ Hc] Hr]. cbn [snd] in Hc.
    destruct (IH c Hc Hr) as (a & c' & E & H').
    exists (render_compound c0 ++ w ++ a), c'.
    rewrite render_selector_cons, E, <- !app_assoc. auto.
Qed.

Lemma render_selector_strip (c0 : Compound) (rest : list (str * Compound)) :
  compound_ok c0 ->
  Forall (fun wc => combinator_ok (fst wc) /\ compound_ok (snd wc)) rest ->
  Py.strip (render_selector c0 rest) = render_selector c0 rest.
Proof.
  intros H0 Hr. apply strip_fixed.
  - pose proof (@compound_head c0 (flat_map (fun wc => fst wc ++ render_compound (snd wc)) rest) H0) as H.
    unfold render_selector. revert H.
    destruct (render_compound c0 ++ _) as [|x l]; [intros [] | intros [H _]; exact H].
  - destruct (render_selector_last H0 Hr) as (a & c & -> & Hc).
    rewrite rev_app_distr.
    pose proof (compound_chars Hc) as Hf. destruct Hc as (_ & _ & Hn).
    apply Forall_rev in Hf.
    destruct (rev (render_compound c)) as [|x l] eqn:E.
    + apply (f_equal (@rev ascii)) in E. rewrite rev_involutive in E. contradiction.
    + apply Forall_inv in Hf. cbn. tauto.
Qed.

Lemma render_selector_chars (rest : list (str * Compound)) :
  forall c0,
    compound_ok c0 ->
    Forall (fun wc => combinator_ok (fst wc) /\ compound_ok (snd wc)) rest ->
    Forall (fun c => sel_char c = true) (render_selector c0 rest).
Proof.
  induction rest as [|[w c] rest IH]; intros c0 H0 Hr.
  - unfold render_selector. cbn [flat_map]. rewrite app_nil_r.
    eapply Forall_impl; [|exact (compound_chars H0)].
      intros x (_ & _ & Hx). exact Hx.
  - apply Forall_cons_iff in Hr as [[[_ Hw] Hc] Hr]. cbn [fst snd] in *.
    rewrite render_selector_cons. apply Forall_app. split.
    + eapply Forall_impl; [|exact (compound_chars H0)].
      intros x (_ & _ & Hx). exact Hx.
    + apply Forall_app. split; [|now apply IH].
      eapply Forall_impl; [|exact Hw]. intros x Hx. now apply combinator_facts in Hx.
Qed.

Lemma scan_gap_combinator (pre rest : str) :
  Forall (fun x => Pat.combinator x = false) pre ->
  scan Pat.combinators 0 (pre ++ rest) = map Gap pre ++ scan Pat.combinators 0 rest.
Proof.
  apply scan_gap_app. intros x t Hx. unfold Pat.combinators.
  cbn [rmatch span]. now rewrite Hx.
Qed.

Lemma split_pieces_not_nil (ps : list piece) : Re.split_pieces ps <> [].
Proof.
  destruct ps as [|[c|m g] ps]; cbn [Re.split_pieces]; try discriminate.
  destruct (Re.split_pieces ps); discriminate.
Qed.

Lemma split_pieces_gaps (pre : str) (ps : list piece) :
  Re.split_pieces (map Gap pre ++ ps)
  = match Re.split_pieces ps with
    | y :: ys => (pre ++ y) :: ys
    | [] => [pre]
    end.
Proof.
  pose proof (split_pieces_not_nil ps) as Hne.
  induction pre as [|x pre IH]; cbn [map app Re.split_pieces].
  - destruct (Re.split_pieces ps); [contradiction | reflexivity].
  - rewrite IH. destruct (Re.split_pieces ps); [contradiction | reflexivity].
Qed.

(** [re.split] cuts such a selector into its compounds. *)
Lemma split_selector (rest : list (str * Compound)) :
  forall c0,
    compound_ok c0 ->
    Forall (fun wc => combinator_ok (fst wc) /\ compound_ok (snd wc)) rest ->
    Re.split Pat.combinators (render_selector c0 rest)
    = map render_compound (c0 :: map snd rest).
Proof.
  unfold Re.split.
  induction rest as [|[w c] rest IH]; intros c0 H0 Hr.
  - unfold render_selector. cbn [flat_map]. rewrite scan_gap_combinator.
    + rewrite split_pieces_gaps. cbn. now rewrite app_nil_r.
    + eapply Forall_impl; [|exact (compound_chars H0)]. intros x (_ & Hx & _). exact Hx.
  - apply Forall_cons_iff in Hr as [[Hw Hc] Hr]. cbn [fst snd] in *.
    rewrite render_selector_cons, scan_gap_combinator.
    + rewrite scan_combinator; [|exact Hw|].
      * rewrite split_pieces_gaps. cbn [Re.split_pieces]. rewrite app_nil_r.
        rewrite (IH c Hc Hr). reflexivity.
      * pose proof (@compound_head c (flat_map (fun wc => fst wc ++ render_compound (snd wc)) rest) Hc) as H.
        unfold render_selector. revert H.
        destruct (render_compound c ++ _) as [|x l]; [intros [] | intros [_ H]; exact H].
    + eapply Forall_impl; [|exact (compound_chars H0)]. intros x (_ & Hx & _). exact Hx.
Qed.

(** What is left of a compound once the ids (or the classes) are taken out. *)
Lemma sub_marker_compound (b : bool) (tag : str) (parts : list (bool * str)) :
  name_ok tag ->
  Forall (fun p => snd p <> [] /\ name_ok (snd p)) parts ->
  Re.sub (Seq (Chr (marker b)) (Plus Pat.word_dash)) [] (tag ++ render_parts parts)
  = tag ++ render_parts (filter (fun p => negb (Bool.eqb (fst p) b)) parts).
Proof.
  intros Ht Hp. unfold Re.sub. rewrite scan_gap_marker.
  - rewrite sub_gaps. f_equal.
    pose proof (proj2 (@marker_parts b parts [] Hp I)) as H.
    rewrite !app_nil_r in H. exact H.
  - eapply Forall_impl; [|exact Ht]. intros x Hx.
    apply word_dash_facts in Hx. destruct b; tauto.
Qed.

Lemma filter_both_markers (parts : list (bool * str)) :
  filter (fun p => negb (Bool.eqb (fst p) false))
    (filter (fun p => negb (Bool.eqb (fst p) true)) parts) = [].
Proof.
  induction parts as [|[b n] parts IH]; [reflexivity|].
  destruct b; cbn [filter fst Bool.eqb negb]; exact IH.
Qed.

Lemma Forall_filter {A} (P : A -> Prop) (f : A -> bool) (l : list A) :
  Forall P l -> Forall P (filter f l).
Proof.
  induction 1 as [|x l Hx _ IH]; cbn [filter]; [constructor|].
  destruct (f x); [constructor|]; assumption.
Qed.

(** Of a compound the loop of [_count_elements] keeps the tag. *)
Lemma count_part_compound (c : Compound) (count : Z) :
  compound_ok c ->
  count_part (render_compound c) count = (count + count_type c)%Z.
Proof.
  intros (Ht & Hp & _). unfold count_part, render_compound.
  change Pat.id with (Seq (Chr (marker true)) (Plus Pat.word_dash)).
  change Pat.class with (Seq (Chr (marker false)) (Plus Pat.word_dash)).
  rewrite (sub_marker_compound true Ht Hp).
  rewrite (sub_marker_compound false Ht (Forall_filter _ Hp)).
  rewrite filter_both_markers. cbn [render_parts flat_map]. rewrite app_nil_r.
  unfold Pat.attribute, Pat.pseudo_any.
  rewrite (@sub_chr_absent "["%char _ _ (c_tag c)), (@sub_chr_absent ":"%char _ _ (c_tag c)).
  - rewrite strip_nospace.
    + unfold count_type. destruct (c_tag c) as [|x t]; [cbn; lia|].
      apply Forall_inv in Ht. apply word_dash_facts in Ht.
      destruct Ht as (_ & _ & _ & _ & _ & Hgt & Hplus & Htilde & Hcomma).
      assert (existsb (fun y => if list_eq_dec ascii_dec (x :: t) y then true else false)
                [lit ">"; lit "+"; lit "~"; lit ","] = false) as ->.
      { cbn [existsb lit list_ascii_of_string].
        repeat match goal with
               | |- context [list_eq_dec ascii_dec ?a ?b] =>
                   destruct (list_eq_dec ascii_dec a b) as [E | _];
                   [injection E as E _; congruence|]
               end.
        reflexivity. }
      cbn [negb andb]. unfold Re.matches, Pat.element_name. cbn [rmatch].
      destruct (Py.isalpha_ascii x); cbn [flat_map fst snd skipn app map].
      * rewrite rev_seq_S. cbn [map app]. reflexivity.
      * lia.
    + eapply Forall_impl; [|exact Ht]. intros x Hx. now apply word_dash_facts in Hx.
  - eapply Forall_impl; [|exact Ht]. intros x Hx.
    apply word_dash_facts in Hx. destruct Hx as (_ & _ & Hx & _).
    apply sel_char_facts in Hx. tauto.
  - eapply Forall_impl; [|exact Ht]. intros x Hx.
    apply word_dash_facts in Hx. destruct Hx as (_ & _ & Hx & _).
    apply sel_char_facts in Hx. tauto.
Qed.

Lemma count_parts_compounds (cs : list Compound) :
  Forall compound_ok cs ->
  forall count,
    fold_left (fun count part => count_part part count) (map render_compound cs) count
    = (count + zsum (map count_type cs))%Z.
Proof.
  induction 1 as [|c cs Hc _ IH]; intros count; cbn [map fold_left zsum fold_right].
  - lia.
  - rewrite (count_part_compound _ Hc), IH. unfold zsum. lia.
Qed.

Lemma count_elements_selector (c0 : Compound) (rest : list (str * Compound)) :
  compound_ok c0 ->
  Forall (fun wc => combinator_ok (fst wc) /\ compound_ok (snd wc)) rest ->
  _count_elements (render_selector c0 rest) = zsum (map count_type (c0 :: map snd rest)).
Proof.
  intros H0 Hr. unfold _count_elements. rewrite (split_selector H0 Hr).
  rewrite count_parts_compounds; [lia|].
  constructor; [exact H0|]. apply Forall_map.
  eapply Forall_impl; [|exact Hr]. intros wc [_ H]. exact H.
Qed.

(** X6: on a selector made of compounds joined by combinators, where a
    compound is an optional tag followed by class and id parts, all names
    being made of the characters of [[\w-]], and a combinator is a
    non-empty run of white space, [>], [+] and [~], [calculate] returns no
    inline style, the number of id parts, the number of class parts, and
    the number of compounds whose tag starts with a letter of [[a-zA-Z]]. *)
Theorem calculate_compound_selector (c0 : Compound) (rest : list (str * Compound)) :
  compound_ok c0 ->
  Forall (fun wc => combinator_ok (fst wc) /\ compound_ok (snd wc)) rest ->
  calculate (render_selector c0 rest)
  = Some (0,
          zsum (map (count_parts true) (c0 :: map snd rest)),
          zsum (map (count_parts false) (c0 :: map snd rest)),
          zsum (map count_type (c0 :: map snd rest)))%Z.
Proof.
  intros H0 Hr.
  rewrite calculate_plain.
  - change Pat.id with (Seq (Chr (marker true)) (Plus Pat.word_dash)).
    change Pat.class with (Seq (Chr (marker false)) (Plus Pat.word_dash)).
    rewrite !marker_selector by assumption.
    now rewrite count_elements_selector.
  - now apply render_selector_chars.
  - now apply render_selector_strip.
Qed.

(** [ul#nav > li.item.on .x] has one id, three classes and two tags. *)
Lemma calculate_compound_selector_witness :
  render_selector {| c_tag := lit "ul"; c_parts := [(true, lit "nav")] |}
    [(lit " > ", {| c_tag := lit "li"; c_parts := [(false, lit "item"); (false, lit "on")] |});
     (lit " ", {| c_tag := []; c_parts := [(false, lit "x")] |})]
  = lit "ul#nav > li.item.on .x"
  /\ calculate (lit "ul#nav > li.item.on .x") = Some (0, 1, 3, 2)%Z.
Proof.
  split; [reflexivity|].
  apply (@calculate_compound_selector
           {| c_tag := lit "ul"; c_parts := [(true, lit "nav")] |}
           [(lit " > ", {| c_tag := lit "li";
                           c_parts := [(false, lit "item"); (false, lit "on")] |});
            (lit " ", {| c_tag := []; c_parts := [(false, lit "x")] |})]).
  - unfold compound_ok, name_ok. cbn. repeat split; try discriminate;
      repeat constructor; try discriminate.
  - repeat constructor; cbn; try discriminate.
Defined.

(** ** Quoted strings *)

Lemma rmatch_quoted (q : ascii) (content post : str) :
  Forall (fun c => c <> q) content ->
  exists l,
    rmatch (Seq (Chr q) (Seq (Star (Pat.other_than q)) (Chr q)))
      ((q :: content ++ [q]) ++ post)
    = (length (q :: content ++ [q]), None) :: l.
Proof.
  intros Hc. rewrite <- app_comm_cons, <- app_assoc. cbn [app].
  assert (span (Pat.other_than q) (content ++ q :: post) = length content) as Hs.
  { apply span_app_all.
    - eapply Forall_impl; [|exact Hc]. intros c H. unfold Pat.other_than.
      apply negb_true_iff. now apply Ascii.eqb_neq.
    - unfold Pat.other_than. now rewrite Ascii.eqb_refl. }
  assert (rmatch (Chr q) (q :: content ++ q :: post) = [(1, None)]) as E1
      by (cbn [rmatch]; now rewrite Ascii.eqb_refl).
  assert (exists l, rmatch (Star (Pat.other_than q)) (content ++ q :: post)
                    = (length content, None) :: l) as [l2 E2].
  { cbn [rmatch]. rewrite Hs, rev_seq_S. cbn [map Nat.add]. eauto. }
  assert (rmatch (Chr q) (skipn (length content) (content ++ q :: post)) = [(1, None)]) as E3.
  { rewrite skipn_length_app. cbn [rmatch]. now rewrite Ascii.eqb_refl. }
  destruct (@rmatch_seq_head _ _ _ _ _ _ _ _ _ E2 E3) as [l3 E4].
  destruct (@rmatch_seq_head (Chr q) _ (q :: content ++ q :: post) _ _ _ _ _ _ E1 E4)
    as [l E].
  exists l. rewrite E. cbn [merge_group length]. rewrite length_app. cbn [length].
  do 2 f_equal; lia.
Qed.

(** A quoted string after a text without that quote is replaced as a whole. *)
Lemma sub_quoted (q : ascii) (repl pre content post : str) :
  Forall (fun c => c <> q) pre ->
  Forall (fun c => c <> q) content ->
  Re.sub (Seq (Chr q) (Seq (Star (Pat.other_than q)) (Chr q))) repl
    (pre ++ q :: content ++ q :: post)
  = pre ++ repl
    ++ Re.sub (Seq (Chr q) (Seq (Star (Pat.other_than q)) (Chr q))) repl post.
Proof.
  intros Hp Hc. unfold Re.sub.
  rewrite (@scan_gap_app _ (fun x => Ascii.eqb x q)).
  - rewrite sub_gaps. f_equal.
    destruct (@rmatch_quoted q content post Hc) as [l E].
    change (q :: content ++ q :: post) with (q :: content ++ [q] ++ post).
    rewrite app_assoc, app_comm_cons.
    rewrite (@scan_hit_app _ (q :: content ++ [q]) post None l); [reflexivity | discriminate | exact E].
  - intros x t Hx. apply rmatch_chr_head. now apply Ascii.eqb_neq.
  - eapply Forall_impl; [|exact Hp]. intros x Hx. now apply Ascii.eqb_neq.
Qed.

Lemma sub_quoted_empty (q : ascii) (repl pre post : str) :
  Forall (fun c => c <> q) pre ->
  Re.sub (Seq (Chr q) (Seq (Star (Pat.other_than q)) (Chr q))) repl
    (pre ++ q :: q :: post)
  = pre ++ repl
    ++ Re.sub (Seq (Chr q) (Seq (Star (Pat.other_than q)) (Chr q))) repl post.
Proof. intros Hp. exact (@sub_quoted q repl pre [] post Hp (Forall_nil _)). Qed.

Lemma sub_quote_free (q : ascii) (repl pre post : str) :
  Forall (fun c => c <> q) pre ->
  Re.sub (Seq (Chr q) (Seq (Star (Pat.other_than q)) (Chr q))) repl (pre ++ post)
  = pre ++ Re.sub (Seq (Chr q) (Seq (Star (Pat.other_than q)) (Chr q))) repl post.
Proof.
  intros Hp. unfold Re.sub.
  rewrite (@scan_gap_app _ (fun x => Ascii.eqb x q)).
  - now rewrite sub_gaps.
  - intros x t Hx. apply rmatch_chr_head. now apply Ascii.eqb_neq.
  - eapply Forall_impl; [|exact Hp]. intros x Hx. now apply Ascii.eqb_neq.
Qed.

(** A word without [q] that occurs in a text occurs on one side of each
    [q] of the text. *)
Lemma contains_split (q : ascii) (p : str) :
  Forall (fun x => x <> q) p ->
  forall a b, Py.contains p (a ++ q :: b) = true ->
              Py.contains p a = true \/ Py.contains p b = true.
Proof.
  intros Hp. induction a as [|c a IH]; intros b H; cbn [app Py.contains] in H;
    apply orb_true_iff in H as [H | H].
  - left. destruct p as [|z p]; [reflexivity|].
    apply Forall_inv in Hp. cbn [Py.startswith] in H.
    apply andb_true_iff in H as [H _]. apply Ascii.eqb_eq in H. now subst.
  - now right.
  - left. cbn [Py.contains].
    change (c :: a ++ q :: b) with ((c :: a) ++ q :: b) in H.
    apply (@startswith_within q (q :: b) eq_refl p (c :: a) Hp) in H.
    now rewrite H.
  - apply IH in H as [H | H]; [left | now right].
    cbn [Py.contains]. rewrite H. apply orb_true_r.
Qed.

Lemma contains_app_l (p a b : str) :
  Py.contains p a = true -> Py.contains p (a ++ b) = true.
Proof.
  rewrite !contains_iff. intros (x & y & ->). exists x, (y ++ b).
  now rewrite <- !app_assoc.
Qed.

Lemma contains_app_r (p a b : str) :
  Py.contains p b = true -> Py.contains p (a ++ b) = true.
Proof.
  rewrite !contains_iff. intros (x & y & ->). exists (a ++ x), y.
  now rewrite <- !app_assoc.
Qed.

Lemma style_outside_quotes (q : ascii) (pre content post : str) :
  q = dq \/ q = "'"%char ->
  Py.contains (lit "style=") (Py.lower (pre ++ q :: content ++ q :: post)) = false ->
  Py.contains (lit "style=") (Py.lower (pre ++ q :: q :: post)) = false.
Proof.
  intros Hq H. destruct (Py.contains _ (Py.lower (pre ++ q :: q :: post))) eqn:E;
    [|reflexivity].
  assert (Py.lower_char q = q) as Lq by (destruct Hq; subst q; reflexivity).
  assert (Forall (fun x => x <> q) (lit "style=")) as Hs
      by (destruct Hq; subst q; repeat constructor; discriminate).
  unfold Py.lower in *. rewrite map_app in E, H. cbn [map] in E, H.
  rewrite map_app in H. cbn [map] in H. rewrite Lq in *.
  apply (contains_split Hs) in E as [E | E].
  - apply (@contains_app_l _ _ (q :: map Py.lower_char content
                                 ++ q :: map Py.lower_char post)) in E.
    congruence.
  - apply (@contains_split q _ Hs []) in E as [E | E]; [discriminate E|].
    apply (@contains_app_r _ (map Py.lower_char pre ++ q :: map Py.lower_char content ++ [q])) in E.
    rewrite <- !app_assoc in E. cbn [app] in E. rewrite <- app_assoc in E. cbn [app] in E.
    congruence.
Qed.

(** X7: a quoted string that follows a text without quotes, and holds
    none itself, does not influence [calculate] by what it holds: as long
    as the selector does not spell [style=] in any case, the result is the
    one of the selector with the string emptied. *)
Theorem quoted_content_ignored (q : ascii) (pre content post : str) :
  q = dq \/ q = "'"%char ->
  Forall (fun c => c <> dq /\ c <> "'"%char) pre ->
  Forall (fun c => c <> dq /\ c <> "'"%char) content ->
  Py.contains (lit "style=") (Py.lower (pre ++ q :: content ++ q :: post)) = false ->
  calculate (pre ++ q :: content ++ q :: post) = calculate (pre ++ q :: q :: post).
Proof.
  intros Hq Hp Hc Hs.
  assert (forall l : str, Forall (fun c => c <> dq /\ c <> "'"%char) l ->
                          Forall (fun c => c <> dq) l) as Hd
      by (intros l; apply Forall_impl; tauto).
  assert (forall l : str, Forall (fun c => c <> dq /\ c <> "'"%char) l ->
                          Forall (fun c => c <> "'"%char) l) as Hq1
      by (intros l; apply Forall_impl; tauto).
  rewrite !calculate_unfold, Hs, (style_outside_quotes _ _ _ Hq Hs). cbv zeta.
  assert (_clean_selector (pre ++ q :: content ++ q :: post)
          = _clean_selector (pre ++ q :: q :: post)) as ->; [|reflexivity].
  unfold _clean_selector, Pat.double_quoted, Pat.single_quoted.
  destruct Hq as [-> | ->].
  - rewrite (@sub_quoted dq _ pre content post), (@sub_quoted dq _ pre [] post);
      auto.
  - change (pre ++ "'"%char :: content ++ "'"%char :: post)
      with (pre ++ ("'"%char :: content ++ ["'"%char] ++ post)).
    change (pre ++ "'"%char :: "'"%char :: post)
      with (pre ++ ["'"%char; "'"%char] ++ post).
    rewrite app_comm_cons, !app_assoc.
    rewrite (@sub_quote_free dq _ ((pre ++ "'"%char :: content) ++ ["'"%char]) post).
    + rewrite (@sub_quote_free dq _ (pre ++ ["'"%char; "'"%char]) post).
      * rewrite <- !app_assoc. cbn [app].
        rewrite (@sub_quoted "'"%char _ pre content), (@sub_quoted_empty "'"%char _ pre);
          auto.
      * apply Forall_app. split; [auto | repeat constructor; discriminate].
    + apply Forall_app. split; [|repeat constructor; discriminate].
      apply Forall_app. split; [auto|]. constructor; [discriminate | auto].
Qed.

(** The class and the id written inside the quotes are not counted. *)
Lemma quoted_content_ignored_witness :
  calculate (lit "a[title='.b #c'] .d") = calculate (lit "a[title=''] .d").
Proof.
  apply (@quoted_content_ignored "'"%char (lit "a[title=") (lit ".b #c") (lit "] .d")).
  - now right.
  - repeat constructor; discriminate.
  - repeat constructor; discriminate.
  - vm_compute. reflexivity.
Defined.

(** ** Stylesheets of flat rules *)

Lemma rmatch_comment_start (s : str) :
  Py.startswith (lit "/*") s = false -> rmatch Pat.comment s = [].
Proof. intros H. unfold Pat.comment. cbn [rmatch]. now rewrite H. Qed.

(** Without [/*] nothing is removed. *)
Lemma sub_comment_absent (repl s : str) :
  Py.contains (lit "/*") s = false -> Re.sub Pat.comment repl s = s.
Proof.
  unfold Re.sub. induction s as [|x s IH]; intros H; [reflexivity|].
  apply contains_cons_false in H as [Hs Hc].
  rewrite scan_gap_one by (now apply rmatch_comment_start).
  cbn [flat_map app]. now rewrite IH.
Qed.

Lemma contains_middle (p a s b : str) :
  Py.contains p (a ++ s ++ b) = false -> Py.contains p s = false.
Proof.
  intros H. destruct (Py.contains p s) eqn:E; [|reflexivity].
  apply (@contains_app_l p s b), (@contains_app_r p a (s ++ b)) in E. congruence.
Qed.

Lemma in_rmatch_group_plus_bound (p : ascii -> bool) (s : str) (n : nat) (g : option str) :
  In (n, g) (rmatch (Group (Plus p)) s) -> 1 <= n <= span p s.
Proof.
  cbn [rmatch]. rewrite map_map. intros H.
  apply in_map_iff in H as [k [E H]]. cbn [fst] in E.
  injection E as <- _. apply in_rev, in_seq in H. lia.
Qed.

(** In the text between the braces, and in the text after the last rule,
    the pattern of the preludes finds nothing. *)
Lemma rmatch_prelude_body (b rest : str) :
  brace_free b ->
  match rest with [] => True | c :: _ => c = "}"%char end ->
  rmatch Pat.prelude (b ++ rest) = [].
Proof.
  intros Hb Hr. destruct (rmatch Pat.prelude (b ++ rest)) as [|[n g] l] eqn:E; [reflexivity|].
  assert (In (n, g) (rmatch Pat.prelude (b ++ rest))) as H by (rewrite E; now left).
  unfold Pat.prelude in H.
  apply in_rmatch_seq in H as (n1 & g1 & n2 & g2 & H1 & H2 & _ & _).
  apply in_rmatch_group_plus_bound in H1.
  rewrite (@span_app_all Pat.not_brace b rest Hb) in H1
    by (destruct rest as [|c rest]; [exact I | now subst c]).
  apply in_rmatch_chr in H2 as (_ & _ & s' & E2).
  rewrite skipn_app in E2. replace (n1 - length b) with 0 in E2 by lia.
  cbn [skipn] in E2.
  destruct (skipn n1 b) as [|c t] eqn:Es; cbn [app] in E2.
  - destruct rest as [|c rest]; [discriminate E2|]. subst c. discriminate E2.
  - injection E2 as -> _.
    assert (In "{"%char b) as Hin by (apply (@In_skipn _ _ n1); rewrite Es; now left).
    apply (proj1 (Forall_forall _ _) Hb) in Hin. discriminate Hin.
Qed.

Lemma scan_prelude_body (rest : str) :
  match rest with [] => True | c :: _ => c = "}"%char end ->
  forall b, brace_free b ->
            scan Pat.prelude 0 (b ++ rest) = map Gap b ++ scan Pat.prelude 0 rest.
Proof.
  intros Hr. induction b as [|x b IH]; intros Hb; [reflexivity|].
  cbn [app]. rewrite scan_gap_one.
  - cbn [map app]. f_equal. apply IH. now apply Forall_inv_tail in Hb.
  - apply (@rmatch_prelude_body (x :: b) rest Hb Hr).
Qed.

Lemma rmatch_prelude_rule (p rest : str) :
  p <> [] -> brace_free p ->
  exists l, rmatch Pat.prelude ((p ++ lit "{") ++ rest)
            = (length (p ++ lit "{"), Some p) :: l.
Proof.
  intros Hn Hp. rewrite <- app_assoc. cbn [lit list_ascii_of_string app].
  assert (exists l, rmatch (Group (Plus Pat.not_brace)) (p ++ "{"%char :: rest)
                    = (length p, Some p) :: l) as [l1 E1].
  { cbn [rmatch]. rewrite (@span_app_all Pat.not_brace p ("{"%char :: rest) Hp eq_refl).
    destruct p as [|c p]; [contradiction|].
    cbn [length]. rewrite rev_seq_S. cbn [map Nat.add fst].
    rewrite (firstn_length_app (c :: p)). eauto. }
  assert (rmatch (Chr "{") (skipn (length p) (p ++ "{"%char :: rest)) = [(1, None)]) as E2
      by (rewrite skipn_length_app; reflexivity).
  destruct (@rmatch_seq_head _ _ _ _ _ _ _ _ _ E1 E2) as [l E].
  exists l. unfold Pat.prelude. rewrite E. cbn [merge_group].
  rewrite length_app. reflexivity.
Qed.

Lemma scan_prelude_rule (p rest : str) :
  p <> [] -> brace_free p ->
  scan Pat.prelude 0 (p ++ lit "{" ++ rest)
  = Hit (p ++ lit "{") (Some p) :: scan Pat.prelude 0 rest.
Proof.
  intros Hn Hp. destruct (@rmatch_prelude_rule p rest Hn Hp) as [l E].
  rewrite app_assoc. apply (@scan_hit_app _ (p ++ lit "{") rest (Some p) l); [|exact E].
  destruct p; [contradiction | discriminate].
Qed.

(** The pattern finds the preludes of the rules, one after the other. *)
Lemma findall_preludes (trailer : str) (rules : list Rule) :
  Forall rule_ok rules -> brace_free trailer ->
  Re.findall_group Pat.prelude (render_sheet rules trailer) = map rule_selectors rules.
Proof.
  intros Hr Ht. unfold Re.findall_group, render_sheet.
  induction Hr as [|r rules (Hn & Hp & Hb) _ IH]; cbn [flat_map map app].
  - rewrite <- (app_nil_r trailer), scan_prelude_body by (exact I || exact Ht).
    rewrite group_texts_gaps. reflexivity.
  - unfold render_rule. rewrite <- !app_assoc.
    rewrite (scan_prelude_rule _ Hn Hp). cbn [flat_map app]. f_equal.
    cbn [lit list_ascii_of_string app].
    rewrite scan_prelude_body by (exact eq_refl || exact Hb).
    rewrite group_texts_gaps.
    rewrite scan_gap_one by reflexivity. exact IH.
Qed.

Lemma sheet_holds_prelude (trailer : str) (rules : list Rule) (r : Rule) :
  In r rules ->
  exists a b, render_sheet rules trailer = a ++ (rule_selectors r ++ lit "{") ++ b.
Proof.
  intros H. apply in_split in H as (l1 & l2 & ->). unfold render_sheet.
  rewrite flat_map_app. cbn [flat_map]. unfold render_rule at 2.
  exists (flat_map render_rule l1),
    ((rule_body r ++ lit "}") ++ flat_map render_rule l2 ++ trailer).
  now rewrite <- !app_assoc.
Qed.

(** X8: in a stylesheet without comments made of rules one after the
    other, each a non-empty prelude and a body without braces, followed by
    a text without braces, [extract_selectors] returns the selectors of the
    preludes in order: what stands between the braces and after the last
    rule adds nothing. *)
Theorem extract_selectors_rules (rules : list Rule) (trailer : str) :
  Forall rule_ok rules ->
  brace_free trailer ->
  Py.contains (lit "/*") (render_sheet rules trailer) = false ->
  extract_selectors (render_sheet rules trailer)
  = flat_map (fun r => extract_selectors (rule_selectors r ++ lit "{")) rules.
Proof.
  intros Hr Ht Hc.
  assert (forall r, In r rules ->
            extract_selectors (rule_selectors r ++ lit "{")
            = if Py.startswith (lit "@") (Py.strip (rule_selectors r)) then []
              else selectors_of_parts (Py.split "," (rule_selectors r))) as Hone.
  { intros r Hin. destruct (sheet_holds_prelude trailer rules r Hin) as (a & b & E).
    rewrite E in Hc. apply contains_middle in Hc.
    apply (proj1 (Forall_forall _ _) Hr) in Hin. destruct Hin as (Hn & Hp & _).
    unfold extract_selectors. rewrite (sub_comment_absent _ _ Hc).
    unfold Re.findall_group.
    rewrite <- (app_nil_r (lit "{")), (scan_prelude_rule _ Hn Hp).
    cbn [scan flat_map app]. now rewrite app_nil_r. }
  unfold extract_selectors at 1.
  rewrite (sub_comment_absent _ _ Hc), (findall_preludes Hr Ht).
  clear Hc Ht. induction rules as [|r rules IH]; [reflexivity|]. cbn [map flat_map].
  rewrite (Hone r (or_introl eq_refl)). f_equal. apply IH.
  - now apply Forall_inv_tail in Hr.
  - intros r' Hin. apply Hone. now right.
Qed.

(** Two rules and an at-rule: the declarations, the at-rule and the text
    after the last rule give no selector. *)
Lemma extract_selectors_rules_witness :
  render_sheet
    [{| rule_selectors := lit "a, .b "; rule_body := lit " color: red; " |};
     {| rule_selectors := lit " @font-face "; rule_body := lit " src: url(x) " |};
     {| rule_selectors := lit " #c > d"; rule_body := [] |}]
    (lit " e, f ")
  = lit "a, .b { color: red; } @font-face { src: url(x) } #c > d{} e, f "
  /\ extract_selectors (lit "a, .b { color: red; } @font-face { src: url(x) } #c > d{} e, f ")
     = extract_selectors (lit "a, .b {") ++ extract_selectors (lit " @font-face {")
       ++ extract_selectors (lit " #c > d{") ++ []
  /\ extract_selectors (lit "a, .b { color: red; } @font-face { src: url(x) } #c > d{} e, f ")
     = [lit "a"; lit ".b"; lit "#c > d"].
Proof.
  split; [reflexivity|]. split; [|vm_compute; reflexivity].
  apply (@extract_selectors_rules
           [{| rule_selectors := lit "a, .b "; rule_body := lit " color: red; " |};
            {| rule_selectors := lit " @font-face "; rule_body := lit " src: url(x) " |};
            {| rule_selectors := lit " #c > d"; rule_body := [] |}]
           (lit " e, f ")).
  - repeat constructor; discriminate.
  - repeat constructor.
  - vm_compute. reflexivity.
Defined.
